(** * Code-Review-Assistant: the review endpoint of [main.py]

    A shallow embedding of [create_review_prompt] and of the request handler
    [review_code_endpoint], together with the Python library operations the
    handler is built from ([bytes.decode], [str.strip], [str.replace],
    [json.loads], the rendering of a [JSONResponse]).

    Conventions.
    - A Python [str] is a list of Unicode code points (lone surrogates are
      legal inside a [str], as in Python).
    - The exception type [exn] covers the subclasses of [Exception]; the
      interpreter's resource limits (recursion depth, [int] digit limit,
      memory) are not modelled, and [print] is taken to succeed.
    - Line 48 of [main.py] writes the return annotation of
      [create_review_prompt] with [=>] where Python wants [->]; the function
      is embedded as the definition it is meant to be. *)

From Stdlib Require Import List Bool Arith NArith ZArith Lia String Ascii.
From Stdlib Require Import Strings.Byte DecimalString.
Import ListNotations.

Set Implicit Arguments.
Set Warnings "-register-all".

(** ** Python strings *)

Module PyStr.

Definition codepoint := N.
Definition str := list codepoint.

(** ASCII literal of the source as a [str]. *)
Definition lit (s : string) : str := map N_of_ascii (list_ascii_of_string s).

Definition dq : str := [34%N].
Definition nl : str := [10%N].

Definition eqb (a b : str) : bool :=
  if list_eq_dec N.eq_dec a b then true else false.

(** [Py_UNICODE_ISSPACE]: what [str.strip()] without argument removes. *)
Definition isspace (c : codepoint) : bool :=
  ((9 <=? c) && (c <=? 13) || (28 <=? c) && (c <=? 32)
   || (c =? 133) || (c =? 160) || (c =? 5760)
   || (8192 <=? c) && (c <=? 8202)
   || (c =? 8232) || (c =? 8233) || (c =? 8239) || (c =? 8287)
   || (c =? 12288))%N.

Fixpoint lstrip (s : str) : str :=
  match s with
  | c :: r => if isspace c then lstrip r else s
  | [] => []
  end.

Definition rstrip (s : str) : str := rev (lstrip (rev s)).

Definition strip (s : str) : str := rstrip (lstrip s).

Fixpoint startswith (p s : str) : bool :=
  match p, s with
  | [], _ => true
  | a :: p', b :: s' => (a =? b)%N && startswith p' s'
  | _ :: _, [] => false
  end.

(** [s.replace(old, new)] for a non-empty [old]: the non-overlapping
    occurrences of [old], found from the left, are replaced.  [skip] counts
    the characters of a match that are still to be passed over. *)
Fixpoint replace_from (old new : str) (skip : nat) (s : str) : str :=
  match s with
  | [] => []
  | c :: r =>
      match skip with
      | S k => replace_from old new k r
      | O =>
          if startswith old s
          then new ++ replace_from old new (List.length old - 1) r
          else c :: replace_from old new 0 r
      end
  end.

Definition replace (old new s : str) : str := replace_from old new 0 s.

(** [x in s]: contiguous substring. *)
Definition contains (s x : str) : Prop := exists pre post, s = pre ++ x ++ post.

Fixpoint find (x s : str) : bool :=
  startswith x s || match s with [] => false | _ :: r => find x r end.

End PyStr.
Import PyStr.

(** ** [bytes.decode("utf-8")] *)

Module Utf8.

Definition cont (b : N) : bool := ((128 <=? b) && (b <=? 191))%N.

Definition within (lo hi b : N) : bool := ((lo <=? b) && (b <=? hi))%N.

(** Strict UTF-8: shortest form only, no surrogates, nothing above
    U+10FFFF.  [None] stands for [UnicodeDecodeError]. *)
Fixpoint decode (bs : list byte) : option str :=
  match bs with
  | [] => Some []
  | b0 :: r0 =>
      let n0 := Byte.to_N b0 in
      if (n0 <? 128)%N then option_map (cons n0) (decode r0)
      else if within 194 223 n0 then
        match r0 with
        | b1 :: r1 =>
            let n1 := Byte.to_N b1 in
            if cont n1
            then option_map (cons ((n0 - 192) * 64 + (n1 - 128))%N) (decode r1)
            else None
        | _ => None
        end
      else if within 224 239 n0 then
        match r0 with
        | b1 :: b2 :: r2 =>
            let n1 := Byte.to_N b1 in
            let n2 := Byte.to_N b2 in
            let lo := if (n0 =? 224)%N then 160%N else 128%N in
            let hi := if (n0 =? 237)%N then 159%N else 191%N in
            if within lo hi n1 && cont n2
            then option_map
                   (cons ((n0 - 224) * 4096 + (n1 - 128) * 64 + (n2 - 128))%N)
                   (decode r2)
            else None
        | _ => None
        end
      else if within 240 244 n0 then
        match r0 with
        | b1 :: b2 :: b3 :: r3 =>
            let n1 := Byte.to_N b1 in
            let n2 := Byte.to_N b2 in
            let n3 := Byte.to_N b3 in
            let lo := if (n0 =? 240)%N then 144%N else 128%N in
            let hi := if (n0 =? 244)%N then 143%N else 191%N in
            if within lo hi n1 && cont n2 && cont n3
            then option_map
                   (cons ((n0 - 240) * 262144 + (n1 - 128) * 4096
                          + (n2 - 128) * 64 + (n3 - 128))%N)
                   (decode r3)
            else None
        | _ => None
        end
      else None
  end.

(** The bytes of an ASCII literal. *)
Definition ascii_bytes (s : string) : list byte := list_byte_of_string s.

End Utf8.

(** ** [json.loads] and the values it builds *)

Module Json.

(** A Python [float] as [json.loads] builds it: [float(lexeme)] of a
    decimal literal, kept as the decimal [(-1)^neg * mant * 10^exp10] it
    rounds, or one of the three constants.  A literal at or above
    [2^1024 - 2^970] rounds to infinity. *)
Inductive pyfloat :=
| FNaN
| FInf (neg : bool)
| FDec (neg : bool) (mant : N) (exp10 : Z).

Inductive value :=
| JNull
| JBool (b : bool)
| JInt (z : Z)
| JFloat (f : pyfloat)
| JStr (s : str)
| JList (l : list value)
| JDict (d : list (str * value)).

Definition overflow_threshold : Z := (2 ^ 1024 - 2 ^ 970)%Z.

Definition overflows (mant : N) (exp10 : Z) : bool :=
  if (0 <=? exp10)%Z
  then (overflow_threshold <=? Z.of_N mant * 10 ^ exp10)%Z
  else (overflow_threshold * 10 ^ (- exp10) <=? Z.of_N mant)%Z.

Definition float_of_decimal (neg : bool) (mant : N) (exp10 : Z) : pyfloat :=
  if overflows mant exp10 then FInf neg else FDec neg mant exp10.

(** [d[k] = v] on an insertion-ordered [dict]. *)
Fixpoint dict_set (k : str) (v : value) (d : list (str * value))
  : list (str * value) :=
  match d with
  | [] => [(k, v)]
  | (k', v') :: r =>
      if PyStr.eqb k k' then (k', v) :: r else (k', v') :: dict_set k v r
  end.

(** [dict(pairs)] *)
Definition dict_of_pairs (pairs : list (str * value)) : list (str * value) :=
  fold_left (fun d kv => dict_set (fst kv) (snd kv) d) pairs [].

Definition is_ws (c : codepoint) : bool :=
  ((c =? 32) || (c =? 9) || (c =? 10) || (c =? 13))%N.

(** [WHITESPACE.match(s, end).end()] *)
Fixpoint skip_ws (s : str) : str :=
  match s with
  | c :: r => if is_ws c then skip_ws r else s
  | [] => []
  end.

Definition is_digit (c : codepoint) : bool := ((48 <=? c) && (c <=? 57))%N.

Definition hexval (c : codepoint) : option N :=
  if is_digit c then Some (c - 48)%N
  else if ((97 <=? c) && (c <=? 102))%N then Some (c - 87)%N
  else if ((65 <=? c) && (c <=? 70))%N then Some (c - 55)%N
  else None.

Definition hex4 (a b c d : codepoint) : option N :=
  match hexval a, hexval b, hexval c, hexval d with
  | Some x, Some y, Some z, Some w => Some (((x * 16 + y) * 16 + z) * 16 + w)%N
  | _, _, _, _ => None
  end.

Definition is_high_surrogate (u : N) : bool := ((55296 <=? u) && (u <=? 56319))%N.
Definition is_low_surrogate (u : N) : bool := ((56320 <=? u) && (u <=? 57343))%N.
Definition join_surrogates (hi lo : N) : N :=
  (65536 + ((hi - 55296) * 1024 + (lo - 56320)))%N.

(** The character a one-letter escape stands for. *)
Definition unescape (e : codepoint) : option codepoint :=
  if (e =? 34)%N then Some 34%N
  else if (e =? 92)%N then Some 92%N
  else if (e =? 47)%N then Some 47%N
  else if (e =? 98)%N then Some 8%N
  else if (e =? 102)%N then Some 12%N
  else if (e =? 110)%N then Some 10%N
  else if (e =? 114)%N then Some 13%N
  else if (e =? 116)%N then Some 9%N
  else None.

Definition push (c : codepoint) (r : option (str * str)) : option (str * str) :=
  match r with
  | Some (x, rest) => Some (c :: x, rest)
  | None => None
  end.

(** [scanstring(s, end, strict=True)], entered after the opening quote:
    the decoded string and the text after the closing quote. *)
Fixpoint scanstring (s : str) : option (str * str) :=
  match s with
  | [] => None
  | c :: r =>
      if (c =? 34)%N then Some ([], r)
      else if (c =? 92)%N then
        match r with
        | [] => None
        | e :: r1 =>
            if (e =? 117)%N then
              match r1 with
              | h1 :: h2 :: h3 :: h4 :: r5 =>
                  match hex4 h1 h2 h3 h4 with
                  | None => None
                  | Some u =>
                      match r5 with
                      | b :: l :: g1 :: g2 :: g3 :: g4 :: r11 =>
                          if is_high_surrogate u && (6 <? List.length r5)
                             && (b =? 92)%N && (l =? 117)%N
                          then
                            match hex4 g1 g2 g3 g4 with
                            | None => None
                            | Some u2 =>
                                if is_low_surrogate u2
                                then push (join_surrogates u u2) (scanstring r11)
                                else push u (scanstring r5)
                            end
                          else push u (scanstring r5)
                      | _ => push u (scanstring r5)
                      end
                  end
              | _ => None
              end
            else
              match unescape e with
              | Some ch => push ch (scanstring r1)
              | None => None
              end
        end
      else if (c <? 32)%N then None
      else push c (scanstring r)
  end.

(** The leading decimal digits of [s], as a number, with their count, and
    what follows them. *)
Fixpoint digits (acc : N) (n : nat) (s : str) : N * nat * str :=
  match s with
  | c :: r => if is_digit c then digits (acc * 10 + (c - 48))%N (S n) r
              else (acc, n, s)
  | [] => (acc, n, s)
  end.

(** The optional fraction [\.\d+]. *)
Definition match_frac (s : str) : option (N * nat * str) :=
  match s with
  | dot :: c :: _ =>
      if (dot =? 46)%N && is_digit c then Some (digits 0 0 (tl s)) else None
  | _ => None
  end.

(** The optional exponent [[eE][-+]?\d+]. *)
Definition match_exp (s : str) : option (Z * str) :=
  match s with
  | e :: r =>
      if ((e =? 101) || (e =? 69))%N then
        let '(neg, r1) :=
          match r with
          | sg :: r' =>
              if (sg =? 45)%N then (true, r')
              else if (sg =? 43)%N then (false, r')
              else (false, r)
          | [] => (false, r)
          end in
        let '(x, n, rest) := digits 0 0 r1 in
        match n with
        | O => None
        | S _ => Some (if neg then (- Z.of_N x)%Z else Z.of_N x, rest)
        end
      else None
  | [] => None
  end.

(** [NUMBER_RE]: an optional minus sign, then [0] or a non-zero digit and
    more digits, then an optional fraction and an optional exponent; and
    the [int] or [float] the match denotes. *)
Definition match_number (s : str) : option (value * str) :=
  let '(neg, s1) :=
    match s with
    | c :: r => if (c =? 45)%N then (true, r) else (false, s)
    | [] => (false, s)
    end in
  match s1 with
  | d :: r =>
      if is_digit d then
        let '(int_part, s2) :=
          if (d =? 48)%N then (0%N, r)
          else let '(x, _, rest) := digits 0 0 s1 in (x, rest) in
        let '(frac, s3) :=
          match match_frac s2 with
          | Some (x, n, rest) => (Some (x, n), rest)
          | None => (None, s2)
          end in
        let '(exp, s4) :=
          match match_exp s3 with
          | Some (x, rest) => (Some x, rest)
          | None => (None, s3)
          end in
        match frac, exp with
        | None, None =>
            Some (JInt (if neg then (- Z.of_N int_part)%Z else Z.of_N int_part), s4)
        | _, _ =>
            let '(fx, fn) := match frac with Some p => p | None => (0%N, O) end in
            let ex := match exp with Some x => x | None => 0%Z end in
            Some (JFloat (float_of_decimal neg
                            (int_part * 10 ^ N.of_nat fn + fx)%N
                            (ex - Z.of_nat fn)%Z), s4)
        end
      else None
  | [] => None
  end.

Inductive scan (A : Type) :=
| Scanned (a : A) (rest : str)
| Invalid
| Deeper.
Arguments Invalid {A}.
Arguments Deeper {A}.

(** [scan_once] with [JSONArray] and [JSONObject].  [Invalid] is a
    [JSONDecodeError]; [Deeper] asks for more [fuel] and is not a result of
    [loads] (see [scan_once_fuel]).  [parse_array] and [parse_object] are
    the two [while True] loops, entered at an element and at the text after
    the opening quote of a key. *)
Fixpoint scan_once (fuel : nat) (s : str) : scan value :=
  match fuel with
  | O => Deeper
  | S f =>
      match s with
      | [] => Invalid
      | c :: r =>
          if (c =? 34)%N then
            match scanstring r with
            | Some (x, rest) => Scanned (JStr x) rest
            | None => Invalid
            end
          else if (c =? 123)%N then
            match skip_ws r with
            | q :: r' =>
                if (q =? 125)%N then Scanned (JDict []) r'
                else if (q =? 34)%N then parse_object f r' []
                else Invalid
            | [] => Invalid
            end
          else if (c =? 91)%N then
            match skip_ws r with
            | q :: r' =>
                if (q =? 93)%N then Scanned (JList []) r'
                else parse_array f (skip_ws r) []
            | [] => parse_array f [] []
            end
          else if startswith (lit "null") s then Scanned JNull (skipn 4 s)
          else if startswith (lit "true") s then Scanned (JBool true) (skipn 4 s)
          else if startswith (lit "false") s then Scanned (JBool false) (skipn 5 s)
          else
            match match_number s with
            | Some (v, rest) => Scanned v rest
            | None =>
                if startswith (lit "NaN") s
                then Scanned (JFloat FNaN) (skipn 3 s)
                else if startswith (lit "Infinity") s
                then Scanned (JFloat (FInf false)) (skipn 8 s)
                else if startswith (lit "-Infinity") s
                then Scanned (JFloat (FInf true)) (skipn 9 s)
                else Invalid
            end
      end
  end

with parse_array (fuel : nat) (s : str) (acc : list value) : scan value :=
  match fuel with
  | O => Deeper
  | S f =>
      match scan_once f s with
      | Scanned v rest =>
          match skip_ws rest with
          | q :: r =>
              if (q =? 93)%N then Scanned (JList (rev (v :: acc))) r
              else if (q =? 44)%N then parse_array f (skip_ws r) (v :: acc)
              else Invalid
          | [] => Invalid
          end
      | Invalid => Invalid
      | Deeper => Deeper
      end
  end

with parse_object (fuel : nat) (s : str) (acc : list (str * value)) : scan value :=
  match fuel with
  | O => Deeper
  | S f =>
      match scanstring s with
      | None => Invalid
      | Some (key, s1) =>
          match skip_ws s1 with
          | colon :: s2 =>
              if (colon =? 58)%N then
                match scan_once f (skip_ws s2) with
                | Scanned v rest =>
                    match skip_ws rest with
                    | q :: r =>
                        if (q =? 125)%N
                        then Scanned (JDict (dict_of_pairs (rev ((key, v) :: acc)))) r
                        else if (q =? 44)%N then
                          match skip_ws r with
                          | q' :: r' =>
                              if (q' =? 34)%N
                              then parse_object f r' ((key, v) :: acc)
                              else Invalid
                          | [] => Invalid
                          end
                        else Invalid
                    | [] => Invalid
                    end
                | Invalid => Invalid
                | Deeper => Deeper
                end
              else Invalid
          | [] => Invalid
          end
      end
  end.

(** [json.loads(s)] for a [str]: [None] is [json.JSONDecodeError]. *)
Definition loads (s : str) : option value :=
  match s with
  | 65279%N :: _ => None
  | _ =>
      match scan_once (2 * List.length s + 1) (skip_ws s) with
      | Scanned v rest =>
          match skip_ws rest with
          | [] => Some v
          | _ :: _ => None
          end
      | _ => None
      end
  end.

End Json.

(** ** The prompt builder *)

Definition prompt_head : str :=
  nl
  ++ lit "    You are an expert code reviewer named " ++ dq ++ lit "CodeSage" ++ dq ++ lit ". Your task is to provide a detailed, constructive, and actionable review for the provided code." ++ nl
  ++ nl
  ++ lit "    **Context:**" ++ nl
  ++ lit "    - **File Name:** `".

Definition prompt_body : str :=
  lit "`" ++ nl
  ++ nl
  ++ lit "    **Instructions:**" ++ nl
  ++ lit "    Analyze the following code based on these five criteria:" ++ nl
  ++ lit "    1.  **Readability**: Is the code clean, well-commented, and easy to understand? Is the naming convention clear?" ++ nl
  ++ lit "    2.  **Modularity_Structure**: Is the code well-organized into functions or classes? Is there good separation of concerns?" ++ nl
  ++ lit "    3.  **Potential_Bugs**: Are there any logical errors, unhandled edge cases, or common programming mistakes?" ++ nl
  ++ lit "    4.  **Best_Practices**: Does the code adhere to standard conventions and idiomatic principles for its language?" ++ nl
  ++ lit "    5.  **Security**: Are there any obvious security vulnerabilities (e.g., hardcoded secrets, injection risks, unsafe functions)?" ++ nl
  ++ nl
  ++ lit "    **Output Format:**" ++ nl
  ++ lit "    Your entire response MUST be a single, minified JSON object. Do not include any markdown formatting (like ```json), explanations, or conversational text outside of the JSON structure." ++ nl
  ++ nl
  ++ lit "    The root object must have keys for each of the five criteria (use underscores, e.g., " ++ dq ++ lit "Potential_Bugs" ++ dq ++ lit "). For each criterion, the value should be an object containing:" ++ nl
  ++ lit "    - " ++ dq ++ lit "rating" ++ dq ++ lit ": An integer rating from 1 (poor) to 10 (excellent)." ++ nl
  ++ lit "    - " ++ dq ++ lit "comment" ++ dq ++ lit ": A concise string (2-3 sentences) with detailed feedback. If you find issues, reference line numbers where applicable." ++ nl
  ++ nl
  ++ lit "    **Code to Review:**" ++ nl
  ++ lit "    ```" ++ nl
  ++ lit "    ".

Definition prompt_tail : str :=
  nl
  ++ lit "    ```" ++ nl
  ++ lit "    ".

(** The f-string of [create_review_prompt]: the template with [{filename}]
    and [{code}] filled in. *)
Definition create_review_prompt (code filename : str) : str :=
  prompt_head ++ filename ++ prompt_body ++ code ++ prompt_tail.

(** The five criteria the template names. *)
Definition criteria : list str :=
  [lit "Readability"; lit "Modularity_Structure"; lit "Potential_Bugs";
   lit "Best_Practices"; lit "Security"].

(** ** Exceptions, effects and responses *)

(** The subclasses of [Exception] the handler can meet.  [ClientError] is
    whatever else the model client raises, told apart by a label. *)
Inductive exn :=
| HTTPException (status_code : Z) (detail : str)
| JSONDecodeError
| UnicodeDecodeError
| UnicodeEncodeError
| ValueError
| ClientError (label : str).

(** What a run of the handler does to its collaborators, in order. *)
Inductive event :=
| EvRead                      (* await file.read() *)
| EvDecode                    (* .decode("utf-8") *)
| EvGenerate (prompt : str)   (* model.generate_content(prompt) *)
| EvPrint (msg : str).        (* print(...) *)

(** A computation: the events it performed, then the exception it raised
    or the value it returned. *)
Definition M (A : Type) : Type := list event * (exn + A).

Definition ret {A} (a : A) : M A := ([], inr a).
Definition raise {A} (e : exn) : M A := ([], inl e).
Definition emit (ev : event) : M unit := ([ev], inr tt).
Definition lift {A} (r : exn + A) : M A := ([], r).

Definition bind {A B} (m : M A) (k : A -> M B) : M B :=
  match m with
  | (t, inl e) => (t, inl e)
  | (t, inr a) => let '(t', r) := k a in (t ++ t', r)
  end.

(** [try: m except ...: h e] *)
Definition try_except {A} (m : M A) (h : exn -> M A) : M A :=
  match m with
  | (t, inl e) => let '(t', r) := h e in (t ++ t', r)
  | (t, inr a) => (t, inr a)
  end.

Declare Scope py_scope.
Delimit Scope py_scope with py.
Notation "x <- m ;; k" := (bind m (fun x => k))
  (at level 61, m at next level, right associativity) : py_scope.
Notation "m ;;; k" := (bind m (fun _ => k))
  (at level 61, right associativity) : py_scope.

Definition trace {A} (m : M A) : list event := fst m.
Definition outcome {A} (m : M A) : exn + A := snd m.

Definition is_generate (ev : event) : bool :=
  match ev with EvGenerate _ => true | _ => false end.

(** The prompts a run sent to the model service. *)
Fixpoint prompts_sent (t : list event) : list str :=
  match t with
  | EvGenerate p :: r => p :: prompts_sent r
  | _ :: r => prompts_sent r
  | [] => []
  end.

(** The upload: its bytes and the name the client gave ([None] when the
    part has none). *)
Record UploadFile := { content : list byte; filename : option str }.

(** [{filename}] inside the f-string formats [None] as its name. *)
Definition format_filename (f : option str) : str :=
  match f with Some n => n | None => lit "None" end.

(** The model client: [generate_content] raises or answers, and reading
    [.text] of the answer raises or gives the reply. *)
Record GenerateContentResponse := { text : exn + str }.
Record GenerativeModel :=
  { generate_content : str -> exn + GenerateContentResponse }.

(** *** Rendering a [JSONResponse]

    [JSONResponse(content)] renders at construction:
    [json.dumps(content, ensure_ascii=False, allow_nan=False, ...)], which
    raises [ValueError] on a float that is not finite, then
    [.encode("utf-8")], which raises [UnicodeEncodeError] on a surrogate. *)

Definition is_surrogate (c : codepoint) : bool := ((55296 <=? c) && (c <=? 57343))%N.

Definition encodable (s : str) : bool := forallb (fun c => negb (is_surrogate c)) s.

Definition finite_float (f : Json.pyfloat) : bool :=
  match f with Json.FDec _ _ _ => true | _ => false end.

Fixpoint all_finite (v : Json.value) : bool :=
  match v with
  | Json.JFloat f => finite_float f
  | Json.JList l => forallb all_finite l
  | Json.JDict d => forallb (fun kv => all_finite (snd kv)) d
  | _ => true
  end.

Fixpoint all_encodable (v : Json.value) : bool :=
  match v with
  | Json.JStr s => encodable s
  | Json.JList l => forallb all_encodable l
  | Json.JDict d => forallb (fun kv => encodable (fst kv) && all_encodable (snd kv)) d
  | _ => true
  end.

Inductive body :=
| Content (v : Json.value)     (* the JSON rendering of [v] *)
| Detail (d : str)             (* [{"detail": d}] *)
| PlainText (t : str).

Record Response := { status : Z; payload : body }.

Definition JSONResponse (v : Json.value) : exn + Response :=
  if negb (all_finite v) then inl ValueError
  else if negb (all_encodable v) then inl UnicodeEncodeError
  else inr {| status := 200; payload := Content v |}.

(** ** Start-up and the request handler *)

Definition fatal_message : str :=
  lit "FATAL ERROR: GEMINI_API_KEY environment variable not set or is empty.".

(** The module-level [try]: [os.environ] after [load_dotenv()] is
    [environ]; [genai key] is the client [genai] builds once configured
    with [key].  The result is the printed lines and the global [model]. *)
Definition startup (genai : str -> GenerativeModel) (environ : str -> option str)
  : list event * option GenerativeModel :=
  match environ (lit "GEMINI_API_KEY") with
  | Some (c :: k) => ([], Some (genai (c :: k)))
  | Some [] => ([EvPrint fatal_message], None)
  | None => ([EvPrint fatal_message], None)
  end.

Definition unavailable_detail : str :=
  lit "LLM service is not configured. The server is missing the GEMINI_API_KEY.".
Definition empty_detail : str := lit "The uploaded file is empty.".
Definition parse_failure_detail : str :=
  lit "Failed to parse the AI model's response. The model returned an invalid format.".
Definition unexpected_prefix : str := lit "An unexpected error occurred: ".

Definition fence_json : str := lit "```json".
Definition fence : str := lit "```".

(** [response.text.strip().replace("```json", "").replace("```", "").strip()] *)
Definition clean_response (raw : str) : str :=
  strip (replace fence [] (replace fence_json [] (strip raw))).

Definition decode_utf8 (bs : list byte) : exn + str :=
  match Utf8.decode bs with
  | Some s => inr s
  | None => inl UnicodeDecodeError
  end.

Definition json_loads (s : str) : exn + Json.value :=
  match Json.loads s with
  | Some v => inr v
  | None => inl JSONDecodeError
  end.

Section Handler.

(** [str(e)]: how Python renders an exception.  The handler only ever
    appends it to a fixed prefix, so it is left open. *)
Variable exc_str : exn -> str.

Local Open Scope py_scope.

(** The body of the [try] block. *)
Definition review_try (model : GenerativeModel) (file : UploadFile) : M Response :=
  emit EvRead ;;;
  emit EvDecode ;;;
  code_content <- lift (decode_utf8 (content file)) ;;
  match strip code_content with
  | [] => raise (HTTPException 400 empty_detail)
  | _ :: _ =>
      let prompt := create_review_prompt code_content (format_filename (filename file)) in
      emit (EvGenerate prompt) ;;;
      response <- lift (generate_content model prompt) ;;
      raw <- lift (text response) ;;
      let cleaned_response_text := clean_response raw in
      review_data <- lift (json_loads cleaned_response_text) ;;
      lift (JSONResponse review_data)
  end.

(** The two [except] clauses, tried in order. *)
Definition review_except (e : exn) : M Response :=
  match e with
  | JSONDecodeError => raise (HTTPException 500 parse_failure_detail)
  | _ =>
      emit (EvPrint (unexpected_prefix ++ exc_str e)) ;;;
      raise (HTTPException 500 (unexpected_prefix ++ exc_str e))
  end.

Definition review_code_endpoint (model : option GenerativeModel) (file : UploadFile)
  : M Response :=
  match model with
  | None => raise (HTTPException 503 unavailable_detail)
  | Some m => try_except (review_try m file) review_except
  end.

End Handler.

Definition internal_server_error : Response :=
  {| status := 500; payload := PlainText (lit "Internal Server Error") |}.

(** What the framework sends for a run of the handler: the response it
    returned, or [{"detail": ...}] with the status of the [HTTPException]
    it raised (itself rendered as a [JSONResponse]); anything else is the
    server's plain 500. *)
Definition respond (r : M Response) : Response :=
  match outcome r with
  | inr resp => resp
  | inl (HTTPException s d) =>
      if encodable d then {| status := s; payload := Detail d |}
      else internal_server_error
  | inl _ => internal_server_error
  end.

(** *** Concrete collaborators for the examples *)

Definition decimal (z : Z) : str := lit (DecimalString.NilZero.string_of_int (Z.to_int z)).

(** [str(e)] as Starlette renders an [HTTPException]; the built-in
    exceptions by a label. *)
Definition starlette_str (e : exn) : str :=
  match e with
  | HTTPException s d => decimal s ++ lit ": " ++ d
  | JSONDecodeError => lit "Expecting value"
  | UnicodeDecodeError => lit "'utf-8' codec can't decode"
  | UnicodeEncodeError => lit "'utf-8' codec can't encode"
  | ValueError => lit "Out of range float values are not JSON compliant"
  | ClientError l => l
  end.

(** A model client that answers every prompt with [reply]. *)
Definition replying (reply : str) : GenerativeModel :=
  {| generate_content := fun _ => inr {| text := inr reply |} |}.

Definition upload (name : string) (body : string) : UploadFile :=
  {| content := Utf8.ascii_bytes body; filename := Some (lit name) |}.

Definition quoted (s : string) : str := dq ++ lit s ++ dq.




(** The reply of the round-trip example: one object per criterion. *)
Definition criterion (name rating comment : string) : str :=
  quoted name ++ lit ":{" ++ quoted "rating" ++ lit ":" ++ lit rating ++ lit ","
  ++ quoted "comment" ++ lit ":" ++ quoted comment ++ lit "}".

Definition example_reply : str :=
  lit "{" ++ criterion "Readability" "8" "Clear naming." ++ lit ","
  ++ criterion "Modularity_Structure" "6" "Large single function." ++ lit ","
  ++ criterion "Potential_Bugs" "9" "None found." ++ lit ","
  ++ criterion "Best_Practices" "7" "Minor style issues." ++ lit ","
  ++ criterion "Security" "10" "No issues." ++ lit "}".

Definition example_entry (name : string) (rating : Z) (comment : string)
  : str * Json.value :=
  (lit name,
   Json.JDict [(lit "rating", Json.JInt rating); (lit "comment", Json.JStr (lit comment))]).

Definition example_review : Json.value :=
  Json.JDict
    [example_entry "Readability" 8 "Clear naming.";
     example_entry "Modularity_Structure" 6 "Large single function.";
     example_entry "Potential_Bugs" 9 "None found.";
     example_entry "Best_Practices" 7 "Minor style issues.";
     example_entry "Security" 10 "No issues."].

(** ** Notions used to state further properties *)

(** What the model call of the handler yields for a prompt: the reply text,
    or the exception raised by [generate_content] or by reading [.text]. *)
Definition ask (model : GenerativeModel) (prompt : str) : exn + str :=
  match generate_content model prompt with
  | inl e => inl e
  | inr response => text response
  end.

(** [deletion s t]: [t] is [s] with some of its characters deleted. *)
Inductive deletion : str -> str -> Prop :=
| deletion_nil : deletion [] []
| deletion_keep (c : codepoint) (s t : str) : deletion s t -> deletion (c :: s) (c :: t)
| deletion_drop (c : codepoint) (s t : str) : deletion s t -> deletion (c :: s) t.

(** A Unicode scalar value: a code point up to U+10FFFF, not a surrogate. *)
Definition is_scalar (c : codepoint) : bool :=
  (c <=? 1114111)%N && negb (is_surrogate c).

Definition is_backtick (c : codepoint) : bool := (c =? 96)%N.

Fixpoint mem (k : str) (ks : list str) : bool :=
  match ks with
  | [] => false
  | k' :: r => PyStr.eqb k k' || mem k r
  end.

Fixpoint distinct (ks : list str) : bool :=
  match ks with
  | [] => true
  | k :: r => negb (mem k r) && distinct r
  end.

(** No object of the value, at any depth, has the same key twice. *)
Fixpoint unique_keys (v : Json.value) : bool :=
  match v with
  | Json.JList l => forallb unique_keys l
  | Json.JDict d =>
      distinct (map fst d) && forallb (fun kv => unique_keys (snd kv)) d
  | _ => true
  end.

(** * Properties *)

(** ** Strings *)

Section StrFacts.

Lemma startswith_spec (p s : str) :
  startswith p s = true <-> exists r, s = p ++ r.
Proof.
  revert s; induction p as [|a p IH]; intros s; simpl.
  - split; [intros _; now exists s | reflexivity].
  - destruct s as [|b s].
    + split; [discriminate | intros [r Hr]; discriminate].
    + rewrite andb_true_iff, N.eqb_eq, IH. split.
      * intros [-> [r ->]]. now exists r.
      * intros [r Hr]. injection Hr as -> ->. split; [reflexivity | now exists r].
Qed.

Lemma find_spec (x s : str) : find x s = true <-> contains s x.
Proof.
  unfold contains. induction s as [|c s IH].
  - simpl. rewrite orb_false_r, startswith_spec. split.
    + intros [r Hr]. now exists [], r.
    + intros [pre [post H]]. destruct pre; [now exists post | discriminate].
  - cbn [find]. rewrite orb_true_iff, startswith_spec, IH. split.
    + intros [[r Hr] | [pre [post H]]].
      * now exists [], r.
      * exists (c :: pre), post. now rewrite H.
    + intros [[|a pre] [post H]].
      * left. now exists post.
      * right. injection H as _ H. now exists pre, post.
Qed.

Lemma find_false (x s : str) : find x s = false <-> ~ contains s x.
Proof.
  rewrite <- find_spec. destruct (find x s); split; congruence.
Qed.

Lemma contains_trans (s t x : str) : contains s t -> contains t x -> contains s x.
Proof.
  intros [p1 [q1 ->]] [p2 [q2 ->]]. exists (p1 ++ p2), (q2 ++ q1).
  now rewrite <- !app_assoc.
Qed.

Lemma contains_app_l (a b x : str) : contains a x -> contains (a ++ b) x.
Proof.
  intros [p [q0 ->]]. exists p, (q0 ++ b). now rewrite <- !app_assoc.
Qed.

Lemma contains_app_r (a b x : str) : contains b x -> contains (a ++ b) x.
Proof.
  intros [p [q0 ->]]. exists (a ++ p), q0. now rewrite <- !app_assoc.
Qed.

Lemma contains_self_app (a b x : str) : contains (a ++ x ++ b) x.
Proof. now exists a, b. Qed.

(** *** [strip] *)

Lemma lstrip_suffix (s : str) : exists pre, s = pre ++ lstrip s.
Proof.
  induction s as [|c s [pre IH]]; simpl.
  - now exists [].
  - destruct (isspace c).
    + exists (c :: pre). now rewrite IH at 1.
    + now exists [].
Qed.

Lemma lstrip_snoc (a : str) (c : codepoint) :
  isspace c = false -> lstrip (a ++ [c]) = lstrip a ++ [c].
Proof.
  intros Hc. induction a as [|b a IH]; simpl.
  - now rewrite Hc.
  - destruct (isspace b); [exact IH | reflexivity].
Qed.

Lemma lstrip_idem (s : str) : lstrip (lstrip s) = lstrip s.
Proof.
  induction s as [|c s IH]; simpl; [reflexivity|].
  destruct (isspace c) eqn:E; [exact IH | simpl; now rewrite E].
Qed.

Lemma rstrip_idem (s : str) : rstrip (rstrip s) = rstrip s.
Proof. unfold rstrip. now rewrite rev_involutive, lstrip_idem. Qed.

Lemma rstrip_cons (c : codepoint) (s : str) :
  isspace c = false -> rstrip (c :: s) = c :: rstrip s.
Proof.
  intros Hc. unfold rstrip. simpl. rewrite lstrip_snoc by exact Hc.
  now rewrite rev_app_distr.
Qed.

Lemma rstrip_prefix (s : str) : exists post, s = rstrip s ++ post.
Proof.
  unfold rstrip. destruct (lstrip_suffix (rev s)) as [pre H].
  exists (rev pre). rewrite <- rev_app_distr, <- H. now rewrite rev_involutive.
Qed.

Lemma lstrip_rstrip_lstrip (s : str) : lstrip (rstrip (lstrip s)) = rstrip (lstrip s).
Proof.
  induction s as [|c s IH]; [reflexivity|]. simpl.
  destruct (isspace c) eqn:E; [exact IH|].
  rewrite rstrip_cons by exact E. simpl. now rewrite E.
Qed.

Lemma strip_idem (s : str) : strip (strip s) = strip s.
Proof. unfold strip. now rewrite lstrip_rstrip_lstrip, rstrip_idem. Qed.

Lemma strip_contained (s : str) : contains s (strip s).
Proof.
  unfold strip. destruct (lstrip_suffix s) as [pre H].
  destruct (rstrip_prefix (lstrip s)) as [post H'].
  exists pre, post. now rewrite <- H', <- H.
Qed.

(** *** [replace] *)

Lemma replace_absent (old new s : str) :
  find old s = false -> replace old new s = s.
Proof.
  unfold replace. induction s as [|c s IH]; [reflexivity|].
  cbn [find replace_from]. rewrite orb_false_iff. intros [-> H].
  now rewrite IH.
Qed.

End StrFacts.

Section FenceFacts.

Lemma fence_unfold : fence = [96; 96; 96]%N.
Proof. reflexivity. Qed.

Lemma replace_from_miss (old new : str) (c : codepoint) (r : str) :
  startswith old (c :: r) = false ->
  replace_from old new 0 (c :: r) = c :: replace_from old new 0 r.
Proof. intros H. cbn [replace_from]. now rewrite H. Qed.

Lemma find_cons_miss (x : str) (c : codepoint) (r : str) :
  startswith x (c :: r) = false -> find x (c :: r) = find x r.
Proof. intros H. cbn [find]. now rewrite H. Qed.

Lemma fence_miss1 (c : codepoint) (r : str) :
  c <> 96%N -> startswith [96; 96; 96]%N (c :: r) = false.
Proof.
  intros H. cbn [startswith]. apply andb_false_iff. left.
  apply N.eqb_neq. congruence.
Qed.

Lemma fence_miss2 (a c : codepoint) (r : str) :
  c <> 96%N -> startswith [96; 96; 96]%N (a :: c :: r) = false.
Proof.
  intros H. cbn [startswith]. apply andb_false_iff. right.
  apply andb_false_iff. left. apply N.eqb_neq. congruence.
Qed.

Lemma fence_miss3 (a b c : codepoint) (r : str) :
  c <> 96%N -> startswith [96; 96; 96]%N (a :: b :: c :: r) = false.
Proof.
  intros H. cbn [startswith]. apply andb_false_iff. right.
  apply andb_false_iff. right. apply andb_false_iff. left.
  apply N.eqb_neq. congruence.
Qed.

(** After [.replace("```", "")] no fence is left: deleting a fence never
    brings three backticks together. *)
Lemma replace_fence_clears (s : str) : find fence (replace fence [] s) = false.
Proof.
  rewrite fence_unfold. unfold replace.
  remember (List.length s) as n eqn:Hn.
  assert (Hle : List.length s <= n) by lia. clear Hn.
  revert s Hle. induction n as [|n IH]; intros s Hle.
  - destruct s; [reflexivity | simpl in Hle; lia].
  - destruct s as [|c1 r1]; [reflexivity|].
    simpl in Hle.
    destruct (N.eq_dec c1 96) as [->|N1].
    + destruct r1 as [|c2 r2]; [reflexivity|]. simpl in Hle.
      destruct (N.eq_dec c2 96) as [->|N2].
      * destruct r2 as [|c3 r3]; [reflexivity|]. simpl in Hle.
        destruct (N.eq_dec c3 96) as [->|N3].
        -- change (replace_from [96; 96; 96]%N [] 0 (96 :: 96 :: 96 :: r3)%N)
             with (replace_from [96; 96; 96]%N [] 0 r3).
           apply IH. lia.
        -- rewrite replace_from_miss by now apply fence_miss3.
           rewrite replace_from_miss by now apply fence_miss2.
           rewrite replace_from_miss by now apply fence_miss1.
           rewrite find_cons_miss by now apply fence_miss3.
           rewrite find_cons_miss by now apply fence_miss2.
           rewrite find_cons_miss by now apply fence_miss1.
           apply IH. lia.
      * rewrite replace_from_miss by now apply fence_miss2.
        rewrite replace_from_miss by now apply fence_miss1.
        rewrite find_cons_miss by now apply fence_miss2.
        rewrite find_cons_miss by now apply fence_miss1.
        apply IH. lia.
    + rewrite replace_from_miss by now apply fence_miss1.
      rewrite find_cons_miss by now apply fence_miss1.
      apply IH. lia.
Qed.

End FenceFacts.

(** ** The JSON scanner consumes its input and never needs more fuel *)

Section ScanFacts.

Import Json.

Lemma skip_ws_length (s : str) : List.length (skip_ws s) <= List.length s.
Proof.
  induction s as [|c s IH]; simpl; [lia|].
  destruct (is_ws c); simpl; lia.
Qed.

Lemma push_inv (c : codepoint) (r : option (str * str)) (x rest : str) :
  push c r = Some (x, rest) -> exists x', r = Some (x', rest).
Proof.
  destruct r as [[x' rest']|]; simpl; [|discriminate].
  intros H. injection H as _ ->. now exists x'.
Qed.

Lemma scanstring_shorter (s x rest : str) :
  scanstring s = Some (x, rest) -> List.length rest < List.length s.
Proof.
  remember (List.length s) as n eqn:Hn.
  assert (Hle : List.length s <= n) by lia. rewrite Hn. clear Hn.
  revert s x rest Hle. induction n as [|n IH]; intros s x rest Hle H.
  - destruct s; [discriminate | simpl in Hle; lia].
  - destruct s as [|c r]; [discriminate|].
    cbn [scanstring] in H. simpl in Hle.
    repeat match goal with
    | H : match ?t with _ => _ end = Some _ |- _ =>
        destruct t eqn:?; try discriminate
    | H : push _ (scanstring ?r) = Some _ |- _ =>
        apply push_inv in H; destruct H as [? H]; apply IH in H;
        [ subst; simpl in *; lia | subst; simpl in *; lia ]
    | H : Some _ = Some _ |- _ => injection H as <- <-; simpl; lia
    end.
Qed.

Lemma digits_length (s : str) (acc : N) (n : nat) (x : N) (m : nat) (rest : str) :
  digits acc n s = (x, m, rest) -> List.length rest <= List.length s.
Proof.
  revert acc n. induction s as [|c s IH]; intros acc n H; simpl in H.
  - injection H as _ _ <-. simpl; lia.
  - destruct (is_digit c).
    + apply IH in H. simpl; lia.
    + injection H as _ _ <-. simpl; lia.
Qed.

Lemma match_frac_length (s : str) (x : N) (n : nat) (rest : str) :
  match_frac s = Some (x, n, rest) -> List.length rest <= List.length s.
Proof.
  unfold match_frac. destruct s as [|dot [|c r]]; try discriminate.
  destruct ((dot =? 46)%N && is_digit c); [|discriminate].
  intros H. injection H as H.
  change (digits 0 0 (c :: r) = (x, n, rest)) in H.
  apply digits_length in H. simpl in *; lia.
Qed.

Lemma match_exp_length (s : str) (x : Z) (rest : str) :
  match_exp s = Some (x, rest) -> List.length rest <= List.length s.
Proof.
  unfold match_exp. destruct s as [|e r]; [discriminate|].
  destruct ((e =? 101) || (e =? 69))%N; [|discriminate].
  destruct r as [|sg r'].
  - simpl. discriminate.
  - destruct (sg =? 45)%N; [|destruct (sg =? 43)%N];
      match goal with
      | |- context [digits 0 0 ?t] =>
          destruct (digits 0 0 t) as [[y k] rest'] eqn:D
      end;
      apply digits_length in D; destruct k; try discriminate;
      intros H; injection H as _ <-; simpl in *; lia.
Qed.

Lemma match_number_shorter (s : str) (v : value) (rest : str) :
  match_number s = Some (v, rest) -> List.length rest < List.length s.
Proof.
  unfold match_number.
  assert (Hsign : forall s1 : str, List.length s1 <= List.length s ->
    match s1 with
    | d :: r =>
        if is_digit d then
          let '(int_part, s2) :=
            if (d =? 48)%N then (0%N, r)
            else let '(x, _, rest) := digits 0 0 s1 in (x, rest) in
          List.length s2 < List.length s
        else True
    | [] => True
    end).
  { intros [|d r] Hle; [exact I|]. destruct (is_digit d) eqn:Hd; [|exact I].
    destruct (d =? 48)%N.
    - simpl in *; lia.
    - cbn [digits]. rewrite Hd.
      destruct (digits (0 * 10 + (d - 48)) 1 r) as [[x k] rest'] eqn:D.
      apply digits_length in D. simpl in *; lia. }
  set (sg := match s with
             | c :: r => if (c =? 45)%N then (true, r) else (false, s)
             | [] => (false, s)
             end).
  assert (Hs1 : List.length (snd sg) <= List.length s).
  { subst sg. destruct s as [|c r]; simpl; [lia|].
    destruct (c =? 45)%N; simpl; lia. }
  destruct sg as [neg s1]. simpl in Hs1. specialize (Hsign s1 Hs1).
  destruct s1 as [|d r]; [discriminate|].
  destruct (is_digit d); [|discriminate].
  destruct (if (d =? 48)%N then (0%N, r)
            else let '(x, _, rest) := digits 0 0 (d :: r) in (x, rest))
    as [int_part s2].
  destruct (match_frac s2) as [[[fx fn] s3]|] eqn:F.
  - apply match_frac_length in F.
    destruct (match_exp s3) as [[ex s4]|] eqn:E.
    + apply match_exp_length in E. intros H. injection H as _ <-. lia.
    + intros H. injection H as _ <-. lia.
  - destruct (match_exp s2) as [[ex s4]|] eqn:E.
    + apply match_exp_length in E. intros H. injection H as _ <-. lia.
    + intros H. injection H as _ <-. lia.
Qed.

Ltac measure_rest :=
  repeat match goal with
  | H : skip_ws ?r = _ |- _ =>
      let L := fresh "L" in
      pose proof (skip_ws_length r) as L; rewrite H in L; clear H
  | H : scanstring _ = Some _ |- _ => apply scanstring_shorter in H
  | H : match_number _ = Some _ |- _ => apply match_number_shorter in H
  end;
  repeat match goal with
  | |- context [skip_ws ?r] =>
      lazymatch goal with
      | _ : List.length (skip_ws r) <= List.length r |- _ => fail
      | _ => pose proof (skip_ws_length r)
      end
  | _ : context [List.length (skip_ws ?r)] |- _ =>
      lazymatch goal with
      | _ : List.length (skip_ws r) <= List.length r |- _ => fail
      | _ => pose proof (skip_ws_length r)
      end
  end;
  rewrite ?length_skipn; simpl List.length in *; try lia;
  repeat match goal with
  | |- context [match ?l with [] => _ | _ :: _ => _ end] =>
      is_var l; destruct l; simpl List.length in *; try lia
  end.

Lemma scan_shorter (fuel : nat) :
  (forall s v rest, scan_once fuel s = Scanned v rest ->
                    List.length rest < List.length s)
  /\ (forall s acc v rest, parse_array fuel s acc = Scanned v rest ->
                           List.length rest < List.length s)
  /\ (forall s acc v rest, parse_object fuel s acc = Scanned v rest ->
                           List.length rest < List.length s).
Proof.
  induction fuel as [|f (IHs & IHa & IHo)];
    [repeat split; intros; discriminate|].
  repeat split.
  - intros s v rest H. cbn [scan_once] in H.
    repeat match goal with
    | H : match ?t with _ => _ end = Scanned _ _ |- _ =>
        destruct t eqn:?; try discriminate
    | H : Scanned _ _ = Scanned _ _ |- _ => injection H as <- <-
    | H : parse_array f _ _ = Scanned _ _ |- _ => apply IHa in H
    | H : parse_object f _ _ = Scanned _ _ |- _ => apply IHo in H
    end; measure_rest.
  - intros s acc v rest H. cbn [parse_array] in H.
    repeat match goal with
    | H : match ?t with _ => _ end = Scanned _ _ |- _ =>
        destruct t eqn:?; try discriminate
    | H : Scanned _ _ = Scanned _ _ |- _ => injection H as <- <-
    | H : scan_once f _ = Scanned _ _ |- _ => apply IHs in H
    | H : parse_array f _ _ = Scanned _ _ |- _ => apply IHa in H
    end; measure_rest.
  - intros s acc v rest H. cbn [parse_object] in H.
    repeat match goal with
    | H : match ?t with _ => _ end = Scanned _ _ |- _ =>
        destruct t eqn:?; try discriminate
    | H : Scanned _ _ = Scanned _ _ |- _ => injection H as <- <-
    | H : scan_once f _ = Scanned _ _ |- _ => apply IHs in H
    | H : parse_object f _ _ = Scanned _ _ |- _ => apply IHo in H
    end; measure_rest.
Qed.

Lemma scan_once_shorter (fuel : nat) (s : str) (v : value) (rest : str) :
  scan_once fuel s = Scanned v rest -> List.length rest < List.length s.
Proof. apply scan_shorter. Qed.

(** With fuel above twice the length of the text, no call runs out. *)
Lemma scan_fuel (fuel : nat) :
  (forall s, 2 * List.length s + 1 <= fuel -> scan_once fuel s <> Deeper)
  /\ (forall s acc, 2 * List.length s + 2 <= fuel ->
                    parse_array fuel s acc <> Deeper)
  /\ (forall s acc, 2 * List.length s + 2 <= fuel ->
                    parse_object fuel s acc <> Deeper).
Proof.
  induction fuel as [|f (IHs & IHa & IHo)];
    [repeat split; intros; simpl in *; lia|].
  repeat split.
  - intros s Hf. cbn [scan_once].
    repeat match goal with
    | |- match ?t with _ => _ end <> Deeper => destruct t eqn:?
    end; try discriminate;
    first [apply IHa | apply IHo]; measure_rest.
  - intros s acc Hf. cbn [parse_array].
    repeat match goal with
    | |- match ?t with _ => _ end <> Deeper => destruct t eqn:?
    end; try discriminate;
    repeat match goal with
    | H : scan_once f _ = Scanned _ _ |- _ => apply scan_once_shorter in H
    end;
    first [ apply IHa
          | exfalso; match goal with
            | H : scan_once f ?x = Deeper |- _ => apply (IHs x); [|exact H]
            end ]; measure_rest.
  - intros s acc Hf. cbn [parse_object].
    repeat match goal with
    | |- match ?t with _ => _ end <> Deeper => destruct t eqn:?
    end; try discriminate;
    repeat match goal with
    | H : scan_once f _ = Scanned _ _ |- _ => apply scan_once_shorter in H
    end;
    first [ apply IHo
          | exfalso; match goal with
            | H : scan_once f ?x = Deeper |- _ => apply (IHs x); [|exact H]
            end ]; measure_rest.
Qed.

(** [loads] never stops for lack of fuel: its scan ends in a value or in a
    [JSONDecodeError]. *)
Lemma loads_scan_total (s : str) :
  scan_once (2 * List.length s + 1) (skip_ws s) <> Deeper.
Proof.
  apply scan_fuel. pose proof (skip_ws_length s). lia.
Qed.

End ScanFacts.

(** ** The handler, step by step *)

Section HandlerFacts.

Variable exc_str : exn -> str.

#[local] Arguments create_review_prompt : simpl never.
#[local] Arguments clean_response : simpl never.
#[local] Arguments json_loads : simpl never.
#[local] Arguments decode_utf8 : simpl never.
#[local] Arguments strip : simpl never.

Lemma lstrip_blank (s : str) : lstrip s = [] <-> forallb isspace s = true.
Proof.
  induction s as [|c s IH]; simpl; [tauto|].
  destruct (isspace c); simpl; [exact IH | split; discriminate].
Qed.


(** [not s.strip()] holds exactly of the empty and the all-whitespace
    text. *)
Lemma strip_blank (s : str) : strip s = [] <-> forallb isspace s = true.
Proof.
  rewrite <- lstrip_blank. unfold strip. split.
  - intros H. destruct (lstrip s) as [|c t] eqn:E; [reflexivity|].
    assert (Hc : isspace c = false).
    { destruct s as [|a s]; [discriminate|]. revert E. clear.
      revert a. induction s as [|b s IH]; intros a; simpl.
      - destruct (isspace a) eqn:Ea; [discriminate|]. now intros [= <- _].
      - destruct (isspace a) eqn:Ea; [apply IH|]. now intros [= <- _]. }
    rewrite rstrip_cons in H by exact Hc. discriminate.
  - intros ->. reflexivity.
Qed.

(** The [try] block on a blank upload: read, decode, raise the 400. *)
Lemma review_try_blank (m : GenerativeModel) (file : UploadFile) (code : str) :
  decode_utf8 (content file) = inr code -> strip code = [] ->
  review_try m file = ([EvRead; EvDecode], inl (HTTPException 400 empty_detail)).
Proof.
  intros Hd Hs. unfold review_try, bind, emit, lift, raise.
  rewrite Hd. cbn. now rewrite Hs.
Qed.


(** Whatever the [try] block returns was rendered by [JSONResponse]. *)
Lemma review_try_returns_200 (m : GenerativeModel) (file : UploadFile) (r : Response) :
  outcome (review_try m file) = inr r -> status r = 200%Z.
Proof.
  unfold review_try, bind, emit, lift, raise, outcome. cbn.
  destruct (decode_utf8 (content file)) as [e|code]; cbn; [discriminate|].
  destruct (strip code) as [|c t]; cbn; [discriminate|].
  destruct (generate_content m _) as [e|resp]; cbn; [discriminate|].
  destruct (text resp) as [e|raw]; cbn; [discriminate|].
  destruct (json_loads (clean_response raw)) as [e|v]; cbn; [discriminate|].
  unfold JSONResponse.
  destruct (all_finite v); cbn; [|discriminate].
  destruct (all_encodable v); cbn; [|discriminate].
  now intros [= <-].
Qed.

(** Every exception of the [try] block leaves the handler as a 500. *)
Lemma review_except_raises_500 (e : exn) :
  exists d, outcome (review_except exc_str e) = inl (HTTPException 500 d).
Proof.
  destruct e; cbn; eauto.
Qed.

Lemma endpoint_outcome (m : GenerativeModel) (file : UploadFile) :
  outcome (review_code_endpoint exc_str (Some m) file) =
    match outcome (review_try m file) with
    | inl e => outcome (review_except exc_str e)
    | inr r => inr r
    end.
Proof.
  unfold review_code_endpoint, try_except, outcome.
  destruct (review_try m file) as [t [e|r]]; cbn; [|reflexivity].
  now destruct (review_except exc_str e).
Qed.

(** On a blank upload the 400 of the [try] block is answered as a 500. *)
Lemma blank_upload_status (m : GenerativeModel) (file : UploadFile) (code : str) :
  decode_utf8 (content file) = inr code -> strip code = [] ->
  status (respond (review_code_endpoint exc_str (Some m) file)) = 500%Z.
Proof.
  intros Hd Hs. unfold respond. rewrite endpoint_outcome.
  rewrite (review_try_blank m file Hd Hs). cbn [outcome snd].
  destruct (review_except_raises_500 (HTTPException 400 empty_detail)) as [d ->].
  now destruct (encodable d).
Qed.

End HandlerFacts.

(** ** The claims *)

#[local] Arguments create_review_prompt : simpl never.
#[local] Arguments clean_response : simpl never.
#[local] Arguments json_loads : simpl never.
#[local] Arguments decode_utf8 : simpl never.
#[local] Arguments strip : simpl never.

(** C1.  A whitespace-only upload is meant to be refused with a 400 whose
    detail says the file is empty.  The handler raises that 400 inside its
    own [try]; the catch-all takes it and answers 500.  Evaluated here on
    the upload [empty.py] holding two spaces and a newline: under every
    configured model and every rendering of exceptions the status is 500,
    and with Starlette's rendering the detail is the catch-all's message
    around the text of the 400. *)
Theorem blank_upload_is_answered_500 :
  let file := {| content := [x20; x20; x0a]; filename := Some (lit "empty.py") |} in
  let run := review_code_endpoint starlette_str (Some (replying (lit "{}"))) file in
  decode_utf8 (content file) = inr [32; 32; 10]%N
  /\ strip [32; 32; 10]%N = []
  /\ outcome (review_try (replying (lit "{}")) file)
     = inl (HTTPException 400 empty_detail)
  /\ respond run
     = {| status := 500;
          payload := Detail (lit "An unexpected error occurred: 400: The uploaded file is empty.") |}
  /\ (forall exc_str m,
        status (respond (review_code_endpoint exc_str (Some m) file)) = 500%Z
        /\ status (respond (review_code_endpoint exc_str (Some m) file)) <> 400%Z).
Proof.
  cbv zeta. repeat split; try reflexivity.
  - apply (@blank_upload_status exc_str m _ [32; 32; 10]%N); reflexivity.
  - rewrite (@blank_upload_status exc_str m _ [32; 32; 10]%N) by reflexivity.
    discriminate.
Qed.

(** C2.  With a configured model every answer of the handler is a 200 or a
    500: whatever [HTTPException] the [try] block raises, the 400 of the
    blank upload included, is taken by [except Exception] and raised again
    as a 500 whose detail is "An unexpected error occurred: " followed by
    the rendering of the exception. *)
Theorem configured_answers_200_or_500
        (exc_str : exn -> str) (m : GenerativeModel) (file : UploadFile) :
  let run := review_code_endpoint exc_str (Some m) file in
  (status (respond run) = 200%Z \/ status (respond run) = 500%Z)
  /\ (forall s d,
        outcome (review_try m file) = inl (HTTPException s d) ->
        outcome run
        = inl (HTTPException 500 (unexpected_prefix ++ exc_str (HTTPException s d))))
  /\ (forall code,
        decode_utf8 (content file) = inr code -> strip code = [] ->
        outcome run
        = inl (HTTPException 500
                 (unexpected_prefix ++ exc_str (HTTPException 400 empty_detail)))).
Proof.
  cbv zeta. split; [|split].
  - unfold respond. rewrite endpoint_outcome.
    destruct (outcome (review_try m file)) as [e|r] eqn:E.
    + destruct (review_except_raises_500 exc_str e) as [d ->].
      right. now destruct (encodable d).
    + left. eapply review_try_returns_200; eassumption.
  - intros s d H. rewrite endpoint_outcome, H. reflexivity.
  - intros code Hd Hs. rewrite endpoint_outcome.
    rewrite (review_try_blank m file Hd Hs). reflexivity.
Qed.

Lemma configured_answers_200_or_500_witness :
  outcome (review_code_endpoint starlette_str (Some (replying (lit "{}")))
             (upload "empty.py" "   "))
  = inl (HTTPException 500
           (unexpected_prefix ++ starlette_str (HTTPException 400 empty_detail))).
Proof.
  exact (proj2 (proj2 (configured_answers_200_or_500 starlette_str
                         (replying (lit "{}")) (upload "empty.py" "   ")))
               (lit "   ") eq_refl eq_refl).
Defined.

(** C3.  When the credential was missing or empty at start-up the global
    model is [None], and the handler then raises the 503 at once: its run
    has no event at all, so no read, no decode and no model call. *)
Theorem unconfigured_fails_fast
        (exc_str : exn -> str) (genai : str -> GenerativeModel)
        (environ : str -> option str) (file : UploadFile) :
  environ (lit "GEMINI_API_KEY") = None \/ environ (lit "GEMINI_API_KEY") = Some [] ->
  let model := snd (startup genai environ) in
  model = None
  /\ review_code_endpoint exc_str model file
     = ([], inl (HTTPException 503 unavailable_detail))
  /\ respond (review_code_endpoint exc_str model file)
     = {| status := 503; payload := Detail unavailable_detail |}.
Proof.
  intros H model.
  assert (Hm : model = None).
  { subst model. unfold startup. destruct H as [-> | ->]; reflexivity. }
  rewrite Hm. repeat split.
Qed.

Lemma unconfigured_fails_fast_witness :
  review_code_endpoint starlette_str
    (snd (startup (fun _ => replying (lit "{}")) (fun _ => None)))
    (upload "a.py" "print(1)")
  = ([], inl (HTTPException 503 unavailable_detail)).
Proof.
  exact (proj1 (proj2 (unconfigured_fails_fast starlette_str
                         (fun _ => replying (lit "{}")) (fun _ => None)
                         (upload "a.py" "print(1)") (or_introl eq_refl)))).
Defined.



(** C5.  On an upload whose decoded text is empty or all whitespace the
    handler, with a configured model, never calls the model service: the
    run is the read, the decode and the log line of the catch-all, and it
    sends no prompt. *)
Theorem blank_upload_never_calls_model
        (exc_str : exn -> str) (m : GenerativeModel) (file : UploadFile) (code : str) :
  decode_utf8 (content file) = inr code ->
  forallb isspace code = true ->
  let run := review_code_endpoint exc_str (Some m) file in
  trace run
  = [EvRead; EvDecode;
     EvPrint (unexpected_prefix ++ exc_str (HTTPException 400 empty_detail))]
  /\ prompts_sent (trace run) = []
  /\ existsb is_generate (trace run) = false.
Proof.
  intros Hd Hb run. apply strip_blank in Hb.
  assert (Ht : trace run
               = [EvRead; EvDecode;
                  EvPrint (unexpected_prefix ++ exc_str (HTTPException 400 empty_detail))]).
  { subst run. unfold review_code_endpoint, try_except.
    rewrite (review_try_blank m file Hd Hb). reflexivity. }
  rewrite Ht. repeat split.
Qed.

Lemma blank_upload_never_calls_model_witness :
  prompts_sent (trace (review_code_endpoint starlette_str
                         (Some (replying (lit "{}"))) (upload "blank.py" "    ")))
  = [].
Proof.
  exact (proj1 (proj2 (@blank_upload_never_calls_model starlette_str
                         (replying (lit "{}")) (upload "blank.py" "    ")
                         (lit "    ") eq_refl eq_refl))).
Defined.




(** C7.  A reply that is valid JSON as it stands, an object whose comment
    is the three-backtick fence, comes back as a different value: the
    cleaning deletes the fence inside the string before the parse.  And no
    cleaned reply, whatever the raw one, contains either fence literal. *)
Theorem cleaning_reaches_inside_json_strings :
  let raw := lit "{" ++ quoted "comment" ++ lit ":" ++ quoted "```" ++ lit "}" in
  let file := upload "a.py" "print(1)" in
  Json.loads raw = Some (Json.JDict [(lit "comment", Json.JStr (lit "```"))])
  /\ clean_response raw = lit "{" ++ quoted "comment" ++ lit ":" ++ quoted "" ++ lit "}"
  /\ (forall exc_str,
        review_code_endpoint exc_str (Some (replying raw)) file
        = ([EvRead; EvDecode;
            EvGenerate (create_review_prompt (lit "print(1)") (lit "a.py"))],
           inr {| status := 200;
                  payload := Content (Json.JDict [(lit "comment", Json.JStr [])]) |}))
  /\ Json.JDict [(lit "comment", Json.JStr [])]
     <> Json.JDict [(lit "comment", Json.JStr (lit "```"))]
  /\ (forall reply,
        ~ contains (clean_response reply) fence
        /\ ~ contains (clean_response reply) fence_json).
Proof.
  cbv zeta. split; [vm_compute; reflexivity|].
  split; [vm_compute; reflexivity|].
  split; [intros exc_str; vm_compute; reflexivity|].
  split; [vm_compute; discriminate|].
  intros reply.
  assert (H : ~ contains (clean_response reply) fence).
  { intros H. unfold clean_response in H.
    pose proof (contains_trans (strip_contained _) H) as H'.
    apply find_spec in H'. rewrite replace_fence_clears in H'. discriminate. }
  split; [exact H|].
  intros H'. apply H. apply (contains_trans H').
  exists [], (lit "json"). reflexivity.
Qed.



(** C9.  The prompt contains the file name and the code as contiguous
    substrings, and names the five criteria Readability,
    Modularity_Structure, Potential_Bugs, Best_Practices and Security. *)
Theorem prompt_contains_inputs_and_criteria (code name : str) :
  let prompt := create_review_prompt code name in
  contains prompt name
  /\ contains prompt code
  /\ contains prompt (lit "Readability")
  /\ contains prompt (lit "Modularity_Structure")
  /\ contains prompt (lit "Potential_Bugs")
  /\ contains prompt (lit "Best_Practices")
  /\ contains prompt (lit "Security")
  /\ Forall (contains prompt) criteria.
Proof.
  cbv zeta. unfold create_review_prompt.
  assert (Hbody : forall c, find c prompt_body = true ->
            contains (prompt_head ++ name ++ prompt_body ++ code ++ prompt_tail) c).
  { intros c H. apply find_spec in H.
    apply contains_app_r, contains_app_r, contains_app_l. exact H. }
  split; [apply contains_self_app|].
  split.
  { exists (prompt_head ++ name ++ prompt_body), prompt_tail.
    now rewrite <- !app_assoc. }
  repeat split; try (apply Hbody; vm_compute; reflexivity).
  unfold criteria. repeat constructor; apply Hbody; vm_compute; reflexivity.
Qed.

(** C10.  On a reply with no occurrence of either fence literal the
    cleaning is the trimming of the surrounding whitespace and nothing
    more; and the reply made of the opening fence, the object [{"a":1}]
    and the closing fence is cleaned to that object. *)
Theorem clean_response_without_fences :
  (forall raw,
      ~ contains raw fence_json -> ~ contains raw fence ->
      clean_response raw = strip raw)
  /\ clean_response (lit "```json{" ++ quoted "a" ++ lit ":1}```")
     = lit "{" ++ quoted "a" ++ lit ":1}".
Proof.
  split; [|vm_compute; reflexivity].
  intros raw Hj Hf. unfold clean_response.
  assert (Hsf : find fence (strip raw) = false).
  { apply find_false. intros H. apply Hf.
    exact (contains_trans (strip_contained raw) H). }
  assert (Hsj : find fence_json (strip raw) = false).
  { apply find_false. intros H. apply Hj.
    exact (contains_trans (strip_contained raw) H). }
  rewrite (replace_absent _ _ _ Hsj), (replace_absent _ _ _ Hsf).
  apply strip_idem.
Qed.

Lemma clean_response_without_fences_witness :
  clean_response (lit "  [1, 2]  ") = strip (lit "  [1, 2]  ").
Proof.
  refine (proj1 clean_response_without_fences (lit "  [1, 2]  ") _ _).
  - apply find_false. reflexivity.
  - apply find_false. reflexivity.
Defined.

(** ** Checks on concrete inputs *)

Example strip_example : strip (lit "  ab c  ") = lit "ab c".
Proof. reflexivity. Qed.

Example replace_example :
  replace fence [] (lit "a```b``c````") = lit "ab``c`".
Proof. reflexivity. Qed.

Example decode_example :
  Utf8.decode [xe2; x82; xac; xc3; xa9] = Some [8364; 233]%N
  /\ Utf8.decode [xed; xa0; x80] = None.
Proof. split; reflexivity. Qed.

Example loads_examples :
  Json.loads (lit "[1, 2.5e3, true, null]")
  = Some (Json.JList [Json.JInt 1; Json.JFloat (Json.FDec false 25 2);
                      Json.JBool true; Json.JNull])
  /\ Json.loads (lit "[1,]") = None
  /\ Json.loads (lit "01") = None
  /\ Json.loads (lit "I cannot review this.") = None.
Proof. repeat split; vm_compute; reflexivity. Qed.

Example any_shape_is_returned :
  respond (review_code_endpoint starlette_str (Some (replying (lit " ```json [1, 2] ``` ")))
             (upload "a.py" "print(1)"))
  = {| status := 200; payload := Content (Json.JList [Json.JInt 1; Json.JInt 2]) |}.
Proof. vm_compute. reflexivity. Qed.

Example undecodable_upload_is_a_500 :
  status (respond (review_code_endpoint starlette_str (Some (replying (lit "{}")))
                     {| content := [xff]; filename := None |}))
  = 500%Z.
Proof. reflexivity. Qed.

(** * Further properties of the code *)

(** ** The runs of the handler *)

Section HandlerRuns.

Variable exc_str : exn -> str.

(** The handler with a configured model is the [try] block followed, on an
    exception, by the [except] clauses. *)
Lemma endpoint_run (m : GenerativeModel) (file : UploadFile) :
  review_code_endpoint exc_str (Some m) file =
    match review_try m file with
    | (t, inl e) => (t ++ trace (review_except exc_str e),
                     outcome (review_except exc_str e))
    | (t, inr r) => (t, inr r)
    end.
Proof.
  unfold review_code_endpoint, try_except, trace, outcome.
  destruct (review_try m file) as [t [e|r]]; [|reflexivity].
  now destruct (review_except exc_str e).
Qed.

Lemma decode_utf8_error (bs : list byte) (e : exn) :
  decode_utf8 bs = inl e -> e = UnicodeDecodeError /\ Utf8.decode bs = None.
Proof.
  unfold decode_utf8. destruct (Utf8.decode bs); [discriminate|].
  now intros [= <-].
Qed.

(** The three ways through the [try] block. *)
Lemma review_try_cases (m : GenerativeModel) (file : UploadFile) :
  (Utf8.decode (content file) = None
   /\ review_try m file = ([EvRead; EvDecode], inl UnicodeDecodeError))
  \/ (exists code,
        decode_utf8 (content file) = inr code /\ strip code = []
        /\ review_try m file
           = ([EvRead; EvDecode], inl (HTTPException 400 empty_detail)))
  \/ (exists code,
        decode_utf8 (content file) = inr code /\ strip code <> []
        /\ review_try m file
           = ([EvRead; EvDecode;
               EvGenerate (create_review_prompt code (format_filename (filename file)))],
              match ask m (create_review_prompt code (format_filename (filename file))) with
              | inl e => inl e
              | inr raw =>
                  match json_loads (clean_response raw) with
                  | inl e => inl e
                  | inr v => JSONResponse v
                  end
              end)).
Proof.
  destruct (decode_utf8 (content file)) as [e|code] eqn:Hd.
  - left. destruct (decode_utf8_error _ Hd) as [-> Hn]. split; [exact Hn|].
    unfold review_try, bind, emit, lift, raise. rewrite Hd. reflexivity.
  - right. destruct (strip code) as [|c t] eqn:Hs.
    + left. exists code. repeat split; try assumption.
      exact (review_try_blank m file Hd Hs).
    + right. exists code. split; [reflexivity|]. split; [congruence|].
      unfold review_try, bind, emit, lift, raise, ask.
      rewrite Hd. cbn. rewrite Hs. cbn.
      destruct (generate_content m _) as [e|resp]; cbn; [reflexivity|].
      destruct (text resp) as [e|raw]; cbn; [reflexivity|].
      destruct (json_loads (clean_response raw)) as [e|v]; cbn; [reflexivity|].
      destruct (JSONResponse v); reflexivity.
Qed.

Lemma json_loads_error (s : str) (e : exn) :
  json_loads s = inl e -> e = JSONDecodeError.
Proof.
  unfold json_loads. destruct (Json.loads s); [discriminate|]. now intros [= <-].
Qed.

Lemma JSONResponse_error (v : Json.value) (e : exn) :
  JSONResponse v = inl e -> e = ValueError \/ e = UnicodeEncodeError.
Proof.
  unfold JSONResponse.
  destruct (all_finite v); cbn; [|intros [= <-]; now left].
  destruct (all_encodable v); cbn; [discriminate|intros [= <-]; now right].
Qed.

Lemma JSONResponse_ok (v : Json.value) (r : Response) :
  JSONResponse v = inr r ->
  all_finite v = true /\ all_encodable v = true
  /\ r = {| status := 200; payload := Content v |}.
Proof.
  unfold JSONResponse.
  destruct (all_finite v); cbn; [|discriminate].
  destruct (all_encodable v); cbn; [|discriminate].
  now intros [= <-].
Qed.

(** What the [except] clauses do with an exception. *)
Lemma review_except_run (e : exn) :
  (e = JSONDecodeError
   /\ review_except exc_str e = ([], inl (HTTPException 500 parse_failure_detail)))
  \/ (e <> JSONDecodeError
      /\ review_except exc_str e
         = ([EvPrint (unexpected_prefix ++ exc_str e)],
            inl (HTTPException 500 (unexpected_prefix ++ exc_str e)))).
Proof.
  destruct e; try (right; split; [discriminate | reflexivity]).
  left. split; reflexivity.
Qed.

Lemma configured_status (m : GenerativeModel) (file : UploadFile) :
  status (respond (review_code_endpoint exc_str (Some m) file)) = 200%Z
  \/ status (respond (review_code_endpoint exc_str (Some m) file)) = 500%Z.
Proof.
  unfold respond. rewrite endpoint_outcome.
  destruct (outcome (review_try m file)) as [e|r] eqn:E.
  - destruct (review_except_raises_500 exc_str e) as [d ->].
    right. now destruct (encodable d).
  - left. eapply review_try_returns_200; eassumption.
Qed.

End HandlerRuns.

(** X1.  The server answers 503 exactly when the key was missing or empty
    at start-up, and that is exactly when start-up printed its fatal line
    (once, and nothing else). *)
Theorem unavailable_iff_key_missing
        (exc_str : exn -> str) (genai : str -> GenerativeModel)
        (environ : str -> option str) (file : UploadFile) :
  let unset := environ (lit "GEMINI_API_KEY") = None
               \/ environ (lit "GEMINI_API_KEY") = Some [] in
  let boot := startup genai environ in
  (status (respond (review_code_endpoint exc_str (snd boot) file)) = 503%Z <-> unset)
  /\ (fst boot = [EvPrint fatal_message] <-> unset)
  /\ (fst boot = [] <-> ~ unset).
Proof.
  cbv zeta. unfold startup.
  destruct (environ (lit "GEMINI_API_KEY")) as [[|c k]|] eqn:E; cbn [fst snd].
  - repeat split; intros; try reflexivity; try discriminate; try (now right).
    exfalso. apply H. now right.
  - repeat split; intros H; try reflexivity; try discriminate.
    + destruct (configured_status exc_str (genai (c :: k)) file) as [H'|H'];
        rewrite H' in H; discriminate.
    + destruct H; discriminate.
    + destruct H; discriminate.
    + intros [?|?]; discriminate.
  - repeat split; intros; try reflexivity; try discriminate; try (now left).
    exfalso. apply H. now left.
Qed.

(** X2.  An upload that is not valid UTF-8 is answered with the catch-all
    500 around the rendering of [UnicodeDecodeError]; the line is logged and
    the model is never called. *)
Theorem undecodable_upload_is_a_logged_500
        (exc_str : exn -> str) (m : GenerativeModel) (file : UploadFile) :
  Utf8.decode (content file) = None ->
  review_code_endpoint exc_str (Some m) file
  = ([EvRead; EvDecode; EvPrint (unexpected_prefix ++ exc_str UnicodeDecodeError)],
     inl (HTTPException 500 (unexpected_prefix ++ exc_str UnicodeDecodeError)))
  /\ prompts_sent (trace (review_code_endpoint exc_str (Some m) file)) = []
  /\ status (respond (review_code_endpoint exc_str (Some m) file)) = 500%Z.
Proof.
  intros Hn.
  assert (Hrun : review_code_endpoint exc_str (Some m) file
                 = ([EvRead; EvDecode;
                     EvPrint (unexpected_prefix ++ exc_str UnicodeDecodeError)],
                    inl (HTTPException 500
                           (unexpected_prefix ++ exc_str UnicodeDecodeError)))).
  { rewrite endpoint_run.
    destruct (review_try_cases m file) as [[_ ->] | [(code & Hd & _) | (code & Hd & _)]];
      [reflexivity | |]; unfold decode_utf8 in Hd; rewrite Hn in Hd; discriminate. }
  split; [exact Hrun|]. split; [now rewrite Hrun|].
  rewrite Hrun. unfold respond, outcome. cbn [snd].
  now destruct (encodable (unexpected_prefix ++ exc_str UnicodeDecodeError)).
Qed.

Lemma undecodable_upload_is_a_logged_500_witness :
  prompts_sent (trace (review_code_endpoint starlette_str (Some (replying (lit "{}")))
                         {| content := [xc3; x28]; filename := Some (lit "a.py") |}))
  = [].
Proof.
  exact (proj1 (proj2 (@undecodable_upload_is_a_logged_500 starlette_str
                         (replying (lit "{}"))
                         {| content := [xc3; x28]; filename := Some (lit "a.py") |}
                         eq_refl))).
Defined.

(** X3.  A request calls the model service at most once, and it does so
    exactly when a model is configured and the upload decodes to text that
    is not blank; the prompt is then built from the untrimmed text. *)
Theorem model_called_at_most_once
        (exc_str : exn -> str) (model : option GenerativeModel) (file : UploadFile) :
  let sent := prompts_sent (trace (review_code_endpoint exc_str model file)) in
  List.length sent <= 1
  /\ (sent <> [] <->
      model <> None
      /\ exists code, decode_utf8 (content file) = inr code /\ strip code <> [])
  /\ (forall p, In p sent ->
      exists code, decode_utf8 (content file) = inr code
                   /\ p = create_review_prompt code (format_filename (filename file))).
Proof.
  cbv zeta. destruct model as [m|].
  2:{ cbn. split; [lia|]. split; [|intros p []].
      split; [intros H; now contradiction H | intros [H _]; now contradiction H]. }
  rewrite endpoint_run.
  destruct (review_try_cases m file)
    as [[Hn ->] | [(code & Hd & Hs & ->) | (code & Hd & Hs & ->)]].
  - destruct (review_except_run exc_str UnicodeDecodeError) as [[H _]|[_ ->]];
      [discriminate|]. cbn. split; [lia|]. split; [|intros p []].
    split; [intros H; now contradiction H|].
    intros [_ (code & Hd & _)]. unfold decode_utf8 in Hd.
    rewrite Hn in Hd. discriminate.
  - destruct (review_except_run exc_str (HTTPException 400 empty_detail))
      as [[H _]|[_ ->]]; [discriminate|]. cbn. split; [lia|]. split; [|intros p []].
    split; [intros H; now contradiction H|].
    intros [_ (code' & Hd' & Hs')]. congruence.
  - assert (Hsent : forall r : exn + Response,
              prompts_sent
                (trace (match r with
                        | inl e =>
                            ([EvRead; EvDecode;
                              EvGenerate (create_review_prompt code
                                            (format_filename (filename file)))]
                               ++ trace (review_except exc_str e),
                             outcome (review_except exc_str e))
                        | inr r0 =>
                            ([EvRead; EvDecode;
                              EvGenerate (create_review_prompt code
                                            (format_filename (filename file)))],
                             inr r0)
                        end))
              = [create_review_prompt code (format_filename (filename file))]).
    { intros [e|r]; [|reflexivity].
      destruct (review_except_run exc_str e) as [[_ ->]|[_ ->]]; reflexivity. }
    rewrite Hsent. cbn. split; [lia|]. split.
    + split; [|discriminate]. intros _. split; [discriminate|].
      exists code. now split.
    + intros p [<-|[]]. exists code. now split.
Qed.

Section AskedRuns.

Variable exc_str : exn -> str.

(** The run of the handler once the upload has decoded to text that is not
    blank: what the model call, the parse and the rendering give, then the
    [except] clauses. *)
Lemma endpoint_asked (m : GenerativeModel) (file : UploadFile) (code : str) :
  decode_utf8 (content file) = inr code -> strip code <> [] ->
  let p := create_review_prompt code (format_filename (filename file)) in
  review_code_endpoint exc_str (Some m) file =
    match match ask m p with
          | inl e => inl e
          | inr raw =>
              match json_loads (clean_response raw) with
              | inl e => inl e
              | inr v => JSONResponse v
              end
          end with
    | inl e => ([EvRead; EvDecode; EvGenerate p] ++ trace (review_except exc_str e),
                outcome (review_except exc_str e))
    | inr r => ([EvRead; EvDecode; EvGenerate p], inr r)
    end.
Proof.
  intros Hd Hs p. rewrite endpoint_run.
  destruct (review_try_cases m file)
    as [[Hn _] | [(code' & Hd' & Hs' & _) | (code' & Hd' & _ & ->)]].
  - unfold decode_utf8 in Hd. rewrite Hn in Hd. discriminate.
  - congruence.
  - assert (code' = code) as -> by congruence. reflexivity.
Qed.

(** Every run of the handler with a configured model has one of three
    endings after the events [t] of its [try] block, and [t] holds no log
    line. *)
Lemma endpoint_endings (m : GenerativeModel) (file : UploadFile) :
  exists t,
    (forall msg, ~ In (EvPrint msg) t)
    /\ ((exists v, review_code_endpoint exc_str (Some m) file
                   = (t, inr {| status := 200; payload := Content v |}))
        \/ review_code_endpoint exc_str (Some m) file
           = (t, inl (HTTPException 500 parse_failure_detail))
        \/ (exists e, e <> JSONDecodeError
                      /\ review_code_endpoint exc_str (Some m) file
                         = (t ++ [EvPrint (unexpected_prefix ++ exc_str e)],
                            inl (HTTPException 500 (unexpected_prefix ++ exc_str e))))).
Proof.
  rewrite endpoint_run.
  destruct (review_try m file) as [t r] eqn:Hrun.
  assert (Ht : forall msg, ~ In (EvPrint msg) t).
  { destruct (review_try_cases m file)
      as [[_ H] | [(code & _ & _ & H) | (code & _ & _ & H)]];
      rewrite Hrun in H; injection H as -> _; intros msg Hin; cbn in Hin;
      intuition discriminate. }
  assert (Hr : forall r0, r = inr r0 -> exists v, r0 = {| status := 200; payload := Content v |}).
  { intros r0 ->.
    destruct (review_try_cases m file)
      as [[_ H] | [(code & _ & _ & H) | (code & _ & _ & H)]];
      rewrite Hrun in H; injection H as _ H; try discriminate.
    destruct (ask m _) as [e|raw]; [discriminate|].
    destruct (json_loads (clean_response raw)) as [e|v]; [discriminate|].
    symmetry in H. apply JSONResponse_ok in H. exists v. tauto. }
  exists t. split; [exact Ht|]. destruct r as [e|r0].
  - destruct (review_except_run exc_str e) as [[-> ->]|[Hne ->]].
    + right. left. cbn. now rewrite app_nil_r.
    + right. right. exists e. split; [exact Hne | reflexivity].
  - left. destruct (Hr r0 eq_refl) as [v ->]. now exists v.
Qed.

End AskedRuns.



(** X5.  The clause [except json.JSONDecodeError] covers the whole [try]
    block: a [JSONDecodeError] raised by the model call itself is answered
    with the parse-failure message, as if the reply had been malformed, and
    is not logged. *)
Theorem client_decode_error_reads_as_parse_failure
        (exc_str : exn -> str) (m : GenerativeModel) (file : UploadFile) (code : str) :
  decode_utf8 (content file) = inr code ->
  strip code <> [] ->
  ask m (create_review_prompt code (format_filename (filename file)))
    = inl JSONDecodeError ->
  review_code_endpoint exc_str (Some m) file
  = ([EvRead; EvDecode;
      EvGenerate (create_review_prompt code (format_filename (filename file)))],
     inl (HTTPException 500 parse_failure_detail)).
Proof.
  intros Hd Hs Ha. rewrite (endpoint_asked exc_str m file Hd Hs). cbv zeta.
  rewrite Ha. reflexivity.
Qed.

Lemma client_decode_error_reads_as_parse_failure_witness :
  respond (review_code_endpoint starlette_str
             (Some {| generate_content := fun _ => inl JSONDecodeError |})
             (upload "a.py" "print(1)"))
  = {| status := 500; payload := Detail parse_failure_detail |}.
Proof.
  rewrite (@client_decode_error_reads_as_parse_failure starlette_str
             {| generate_content := fun _ => inl JSONDecodeError |}
             (upload "a.py" "print(1)") (lit "print(1)") eq_refl
             ltac:(vm_compute; discriminate) eq_refl).
  reflexivity.
Defined.

(** X6.  Whatever the handler logs is what it answers: a logged line is
    the detail of the 500 the run raises, and it is the catch-all prefix
    followed by the rendering of an exception other than
    [JSONDecodeError]. *)
Theorem logged_line_is_the_detail
        (exc_str : exn -> str) (model : option GenerativeModel) (file : UploadFile)
        (msg : str) :
  In (EvPrint msg) (trace (review_code_endpoint exc_str model file)) ->
  outcome (review_code_endpoint exc_str model file) = inl (HTTPException 500 msg)
  /\ exists e, e <> JSONDecodeError /\ msg = unexpected_prefix ++ exc_str e.
Proof.
  destruct model as [m|]; [|intros []].
  destruct (endpoint_endings exc_str m file)
    as (t & Ht & [[v ->] | [-> | (e & Hne & ->)]]); cbn [trace outcome fst snd].
  - intros H. now apply Ht in H.
  - intros H. now apply Ht in H.
  - intros H. apply in_app_or in H. destruct H as [H|[H|[]]].
    + now apply Ht in H.
    + injection H as <-. split; [reflexivity|]. now exists e.
Qed.

Lemma logged_line_is_the_detail_witness :
  outcome (review_code_endpoint starlette_str (Some (replying (lit "{}")))
             (upload "blank.py" "  "))
  = inl (HTTPException 500
           (lit "An unexpected error occurred: 400: The uploaded file is empty.")).
Proof.
  refine (proj1 (@logged_line_is_the_detail starlette_str (Some (replying (lit "{}")))
                   (upload "blank.py" "  ")
                   (lit "An unexpected error occurred: 400: The uploaded file is empty.")
                   _)).
  vm_compute. right. right. left. reflexivity.
Defined.

(** X7.  A returned response is always the parse of the cleaned reply: if
    the handler returns, then the upload decoded to text that is not
    blank, the model answered the prompt built from it, the cleaned answer
    parsed to a value that can be rendered, and the response is that value
    with status 200, after exactly read, decode and one model call. *)
Theorem returned_response_is_the_parsed_reply
        (exc_str : exn -> str) (model : option GenerativeModel) (file : UploadFile)
        (r : Response) :
  outcome (review_code_endpoint exc_str model file) = inr r ->
  exists m code raw v,
    model = Some m
    /\ decode_utf8 (content file) = inr code
    /\ strip code <> []
    /\ ask m (create_review_prompt code (format_filename (filename file))) = inr raw
    /\ Json.loads (clean_response raw) = Some v
    /\ all_finite v = true /\ all_encodable v = true
    /\ r = {| status := 200; payload := Content v |}
    /\ trace (review_code_endpoint exc_str model file)
       = [EvRead; EvDecode;
          EvGenerate (create_review_prompt code (format_filename (filename file)))].
Proof.
  destruct model as [m|]; [|discriminate].
  destruct (review_try_cases m file)
    as [[Hn Ht] | [(code & Hd & Hs & Ht) | (code & Hd & Hs & Ht)]].
  - rewrite endpoint_run, Ht.
    destruct (review_except_raises_500 exc_str UnicodeDecodeError) as [d ->].
    discriminate.
  - rewrite endpoint_run, Ht.
    destruct (review_except_raises_500 exc_str (HTTPException 400 empty_detail)) as [d ->].
    discriminate.
  - rewrite (endpoint_asked exc_str m file Hd Hs). cbv zeta.
    destruct (ask m _) as [e|raw] eqn:Ha.
    { destruct (review_except_raises_500 exc_str e) as [d ->]. discriminate. }
    unfold json_loads.
    destruct (Json.loads (clean_response raw)) as [v|] eqn:Hl.
    2:{ destruct (review_except_raises_500 exc_str JSONDecodeError) as [d ->].
        discriminate. }
    destruct (JSONResponse v) as [e|r0] eqn:Hj.
    { destruct (review_except_raises_500 exc_str e) as [d ->]. discriminate. }
    cbn [outcome trace fst snd]. intros [= <-].
    apply JSONResponse_ok in Hj. destruct Hj as (Hf & He & ->).
    exists m, code, raw, v. repeat split; assumption.
Qed.

Lemma returned_response_is_the_parsed_reply_witness :
  exists m code raw v,
    Some (replying example_reply) = Some m
    /\ decode_utf8 (content (upload "a.py" "print(1)")) = inr code
    /\ strip code <> []
    /\ ask m (create_review_prompt code
                (format_filename (filename (upload "a.py" "print(1)")))) = inr raw
    /\ Json.loads (clean_response raw) = Some v
    /\ all_finite v = true /\ all_encodable v = true
    /\ {| status := 200; payload := Content example_review |}
       = {| status := 200; payload := Content v |}
    /\ trace (review_code_endpoint starlette_str (Some (replying example_reply))
                (upload "a.py" "print(1)"))
       = [EvRead; EvDecode;
          EvGenerate (create_review_prompt code
                        (format_filename (filename (upload "a.py" "print(1)"))))].
Proof.
  refine (@returned_response_is_the_parsed_reply starlette_str
            (Some (replying example_reply)) (upload "a.py" "print(1)")
            {| status := 200; payload := Content example_review |} _).
  vm_compute. reflexivity.
Defined.

(** X8.  A reply that is empty or all whitespace is answered with the
    parse-failure 500: the cleaned text is empty and the empty text is not
    JSON. *)
Theorem blank_reply_is_a_parse_failure
        (exc_str : exn -> str) (m : GenerativeModel) (file : UploadFile)
        (code raw : str) :
  decode_utf8 (content file) = inr code ->
  strip code <> [] ->
  ask m (create_review_prompt code (format_filename (filename file))) = inr raw ->
  forallb isspace raw = true ->
  clean_response raw = []
  /\ review_code_endpoint exc_str (Some m) file
     = ([EvRead; EvDecode;
         EvGenerate (create_review_prompt code (format_filename (filename file)))],
        inl (HTTPException 500 parse_failure_detail)).
Proof.
  intros Hd Hs Ha Hb.
  assert (Hc : clean_response raw = []).
  { unfold clean_response. apply strip_blank in Hb. rewrite Hb. reflexivity. }
  split; [exact Hc|].
  rewrite (endpoint_asked exc_str m file Hd Hs). cbv zeta.
  rewrite Ha, Hc. reflexivity.
Qed.

Lemma blank_reply_is_a_parse_failure_witness :
  respond (review_code_endpoint starlette_str (Some (replying (lit "   ")))
             (upload "a.py" "print(1)"))
  = {| status := 500; payload := Detail parse_failure_detail |}.
Proof.
  rewrite (proj2 (@blank_reply_is_a_parse_failure starlette_str (replying (lit "   "))
                    (upload "a.py" "print(1)") (lit "print(1)") (lit "   ")
                    eq_refl ltac:(vm_compute; discriminate) eq_refl eq_refl)).
  reflexivity.
Defined.

(** ** The cleaning of the reply *)

Section CleaningFacts.

Lemma fence_json_has_fence (s : str) : find fence s = false -> find fence_json s = false.
Proof.
  intros H. apply find_false. intros Hj. apply find_false in H. apply H.
  apply (contains_trans Hj). exists [], (lit "json"). reflexivity.
Qed.

Lemma clean_fence_free (raw : str) :
  find fence raw = false -> clean_response raw = strip raw.
Proof.
  intros Hf. unfold clean_response.
  assert (Hsf : find fence (strip raw) = false).
  { apply find_false. intros H. apply find_false in Hf. apply Hf.
    exact (contains_trans (strip_contained raw) H). }
  rewrite (replace_absent _ _ _ (fence_json_has_fence _ Hsf)).
  rewrite (replace_absent _ _ _ Hsf). apply strip_idem.
Qed.

Lemma clean_has_no_fence (raw : str) : find fence (clean_response raw) = false.
Proof.
  apply find_false. intros H. unfold clean_response in H.
  pose proof (contains_trans (strip_contained _) H) as H'.
  apply find_spec in H'. rewrite replace_fence_clears in H'. discriminate.
Qed.

(** *** Deletions *)

Lemma deletion_refl (s : str) : deletion s s.
Proof. induction s; constructor; assumption. Qed.

Lemma deletion_trans (s t u : str) : deletion s t -> deletion t u -> deletion s u.
Proof.
  intros H. revert u. induction H as [|c s t H IH|c s t H IH]; intros u Hu.
  - exact Hu.
  - inversion Hu; subst; constructor; auto.
  - constructor. auto.
Qed.

Lemma deletion_app (s t s' t' : str) :
  deletion s t -> deletion s' t' -> deletion (s ++ s') (t ++ t').
Proof.
  intros H H'. induction H; simpl; try constructor; assumption.
Qed.

Lemma deletion_rev (s t : str) : deletion s t -> deletion (rev s) (rev t).
Proof.
  induction 1 as [|c s t H IH|c s t H IH]; simpl.
  - constructor.
  - apply deletion_app; [exact IH | apply deletion_refl].
  - rewrite <- (app_nil_r (rev t)). apply deletion_app; [exact IH|].
    constructor. constructor.
Qed.

Lemma deletion_length (s t : str) : deletion s t -> List.length t <= List.length s.
Proof. induction 1; simpl; lia. Qed.

Lemma lstrip_deletes (s : str) : deletion s (lstrip s).
Proof.
  induction s as [|c s IH]; simpl; [constructor|].
  destruct (isspace c); [now constructor | apply deletion_refl].
Qed.

Lemma strip_deletes (s : str) : deletion s (strip s).
Proof.
  unfold strip, rstrip. apply (deletion_trans (lstrip_deletes s)).
  rewrite <- (rev_involutive (lstrip s)) at 1.
  apply deletion_rev, lstrip_deletes.
Qed.

Lemma replace_from_deletes (old : str) (k : nat) (s : str) :
  deletion s (replace_from old [] k s).
Proof.
  revert k. induction s as [|c s IH]; intros k; [constructor|].
  cbn [replace_from]. destruct k as [|k]; [|now constructor].
  destruct (startswith old (c :: s)); cbn [app]; constructor; apply IH.
Qed.

(** *** Whitespace around a text *)

Lemma lstrip_blank_app (pre s : str) :
  forallb isspace pre = true -> lstrip (pre ++ s) = lstrip s.
Proof.
  induction pre as [|c pre IH]; [reflexivity|]. cbn [forallb app lstrip].
  intros H. apply andb_true_iff in H. destruct H as [-> H]. auto.
Qed.

Lemma forallb_rev (f : codepoint -> bool) (s : str) :
  forallb f (rev s) = forallb f s.
Proof.
  induction s as [|c s IH]; [reflexivity|]. cbn [rev forallb].
  rewrite forallb_app, IH. cbn. rewrite andb_true_r. apply andb_comm.
Qed.

Lemma rstrip_blank_app (s post : str) :
  forallb isspace post = true -> rstrip (s ++ post) = rstrip s.
Proof.
  intros H. unfold rstrip. rewrite rev_app_distr.
  rewrite lstrip_blank_app; [reflexivity|]. now rewrite forallb_rev.
Qed.

Lemma strip_blank_around (pre s post : str) :
  forallb isspace pre = true -> forallb isspace post = true ->
  strip (pre ++ s ++ post) = strip s.
Proof.
  intros Hpre Hpost. unfold strip. rewrite lstrip_blank_app by exact Hpre.
  destruct (lstrip_suffix s) as [p Hp].
  destruct (lstrip s) as [|c t] eqn:E.
  - rewrite app_nil_r in Hp. subst p.
    assert (Hs : forallb isspace s = true) by now apply lstrip_blank.
    rewrite lstrip_blank_app by exact Hs.
    assert (Hl : lstrip post = []) by now apply lstrip_blank.
    now rewrite Hl.
  - assert (Hc : isspace c = false).
    { clear Hp. revert E. induction s as [|a s IH]; [discriminate|].
      cbn [lstrip]. destruct (isspace a) eqn:Ea; [exact IH|].
      now intros [= <- _]. }
    assert (Hl : lstrip (s ++ post) = (c :: t) ++ post).
    { clear Hp. revert E. induction s as [|a s IH]; [discriminate|].
      cbn [lstrip app]. destruct (isspace a) eqn:Ea; [exact IH|].
      intros [= <- <-]. reflexivity. }
    rewrite Hl. now apply rstrip_blank_app.
Qed.

End CleaningFacts.

(** X9.  Cleaning is idempotent: a cleaned reply is left as it is by a
    second cleaning. *)
Theorem clean_response_idempotent (raw : str) :
  clean_response (clean_response raw) = clean_response raw.
Proof.
  rewrite (clean_fence_free _ (clean_has_no_fence raw)).
  unfold clean_response. apply strip_idem.
Qed.

(** X10.  Cleaning only deletes: the cleaned reply is the raw reply with
    some characters removed, in the same order, so it is never longer. *)
Theorem clean_response_only_deletes (raw : str) :
  deletion raw (clean_response raw)
  /\ List.length (clean_response raw) <= List.length raw.
Proof.
  assert (H : deletion raw (clean_response raw)).
  { unfold clean_response, replace.
    apply (deletion_trans (strip_deletes raw)).
    apply (deletion_trans (replace_from_deletes fence_json 0 _)).
    apply (deletion_trans (replace_from_deletes fence 0 _)).
    apply strip_deletes. }
  split; [exact H | now apply deletion_length].
Qed.

Section FencedReplies.

Lemma strip_fixed (c d : codepoint) (m : str) :
  isspace c = false -> isspace d = false ->
  strip (c :: m ++ [d]) = c :: m ++ [d].
Proof.
  intros Hc Hd. unfold strip. cbn [lstrip]. rewrite Hc.
  unfold rstrip. change (c :: m ++ [d]) with ((c :: m) ++ [d]).
  rewrite rev_app_distr. cbn [rev app lstrip]. rewrite Hd.
  change (d :: rev m ++ [c]) with ([d] ++ rev (c :: m)).
  rewrite rev_app_distr, rev_involutive. reflexivity.
Qed.

Lemma no_backtick_miss (old : str) (c : codepoint) (r : str) :
  is_backtick c = false -> startswith (96%N :: old) (c :: r) = false.
Proof.
  unfold is_backtick. intros H. cbn [startswith].
  rewrite N.eqb_sym, H. reflexivity.
Qed.

Lemma replace_fence_tail (body : str) :
  forallb (fun c => negb (is_backtick c)) body = true ->
  replace fence [] (body ++ fence) = body.
Proof.
  unfold replace. induction body as [|c body IH]; [reflexivity|].
  cbn [forallb app]. intros H. apply andb_true_iff in H. destruct H as [Hc H].
  apply negb_true_iff in Hc.
  rewrite replace_from_miss by (apply (no_backtick_miss [96; 96]%N); exact Hc).
  now rewrite IH.
Qed.

Lemma find_fence_json_tail (body : str) :
  forallb (fun c => negb (is_backtick c)) body = true ->
  find fence_json (body ++ fence) = false.
Proof.
  induction body as [|c body IH]; [reflexivity|].
  cbn [forallb app]. intros H. apply andb_true_iff in H. destruct H as [Hc H].
  apply negb_true_iff in Hc.
  rewrite find_cons_miss
    by (apply (no_backtick_miss [96; 96; 106; 115; 111; 110]%N); exact Hc).
  auto.
Qed.

Lemma find_fence_no_backtick (body : str) :
  forallb (fun c => negb (is_backtick c)) body = true -> find fence body = false.
Proof.
  induction body as [|c body IH]; [reflexivity|].
  cbn [forallb]. intros H. apply andb_true_iff in H. destruct H as [Hc H].
  apply negb_true_iff in Hc.
  rewrite find_cons_miss by (apply (no_backtick_miss [96; 96]%N); exact Hc).
  auto.
Qed.

(** The run of the handler sees the reply only through its cleaning. *)
Lemma replying_run_clean (exc_str : exn -> str) (raw raw' : str) (file : UploadFile) :
  clean_response raw = clean_response raw' ->
  review_code_endpoint exc_str (Some (replying raw)) file
  = review_code_endpoint exc_str (Some (replying raw')) file.
Proof.
  intros H. rewrite !endpoint_run.
  assert (Ht : review_try (replying raw) file = review_try (replying raw') file).
  { unfold review_try, bind, emit, lift, raise, replying. cbn.
    destruct (decode_utf8 (content file)) as [e|code]; cbn; [reflexivity|].
    destruct (strip code); cbn; [reflexivity|]. now rewrite H. }
  now rewrite Ht.
Qed.

End FencedReplies.

(** X11.  The fenced form is unwrapped: for a body without backticks,
    wrapped in the opening fence with its language tag and the closing
    fence, with any whitespace around, the cleaned reply is the body
    trimmed, the same as for the body sent bare; so the handler's run is
    the same for both. *)
Theorem fenced_reply_is_unwrapped
        (exc_str : exn -> str) (model_pre body model_post : str) (file : UploadFile) :
  forallb isspace model_pre = true ->
  forallb isspace model_post = true ->
  forallb (fun c => negb (is_backtick c)) body = true ->
  let fenced := model_pre ++ (fence_json ++ body ++ fence) ++ model_post in
  clean_response fenced = strip body
  /\ clean_response fenced = clean_response body
  /\ review_code_endpoint exc_str (Some (replying fenced)) file
     = review_code_endpoint exc_str (Some (replying body)) file.
Proof.
  intros Hpre Hpost Hb fenced.
  assert (Hc : clean_response fenced = strip body).
  { subst fenced. unfold clean_response.
    rewrite strip_blank_around by assumption.
    assert (Hx : strip (fence_json ++ body ++ fence) = fence_json ++ body ++ fence).
    { assert (E : fence_json ++ body ++ fence
                  = 96%N :: ([96; 96; 106; 115; 111; 110]%N ++ body ++ [96; 96]%N)
                            ++ [96%N]).
      { change fence_json with ([96; 96; 96; 106; 115; 111; 110]%N).
        change fence with ([96; 96]%N ++ [96%N]).
        cbn [app]. rewrite <- !app_assoc. reflexivity. }
      rewrite E. apply strip_fixed; reflexivity. }
    rewrite Hx.
    assert (Hj : replace fence_json [] (fence_json ++ body ++ fence)
                 = replace fence_json [] (body ++ fence)) by reflexivity.
    rewrite Hj, (replace_absent _ _ _ (find_fence_json_tail _ Hb)).
    now rewrite replace_fence_tail. }
  assert (Hc' : clean_response body = strip body)
    by (apply clean_fence_free, find_fence_no_backtick, Hb).
  split; [exact Hc|]. split; [congruence|].
  apply replying_run_clean. congruence.
Qed.

Lemma fenced_reply_is_unwrapped_witness :
  clean_response (nl ++ (fence_json ++ (nl ++ example_reply ++ nl) ++ fence) ++ nl)
  = strip (nl ++ example_reply ++ nl).
Proof.
  refine (proj1 (@fenced_reply_is_unwrapped starlette_str nl
                   (nl ++ example_reply ++ nl) nl (upload "a.py" "print(1)")
                   _ _ _)).
  - reflexivity.
  - reflexivity.
  - vm_compute. reflexivity.
Defined.

(** X12.  [strip] removes whitespace and nothing else: the text is the
    trimmed text between two runs of whitespace, and the trimmed text
    neither begins nor ends with a whitespace character. *)
Theorem strip_removes_surrounding_whitespace (s : str) :
  (exists left_ws right_ws,
      s = left_ws ++ strip s ++ right_ws
      /\ forallb isspace left_ws = true /\ forallb isspace right_ws = true)
  /\ (forall c r, strip s = c :: r -> isspace c = false)
  /\ (forall r c, strip s = r ++ [c] -> isspace c = false).
Proof.
  assert (Hl : forall t : str, exists p, t = p ++ lstrip t /\ forallb isspace p = true).
  { induction t as [|c t (p & Hp & Hb)]; [now exists []|]. cbn [lstrip].
    destruct (isspace c) eqn:E.
    - exists (c :: p). cbn [app forallb]. rewrite E, Hb. split; [congruence | reflexivity].
    - now exists []. }
  assert (Hh : forall (t : str) c r, lstrip t = c :: r -> isspace c = false).
  { induction t as [|a t IH]; [discriminate|]. cbn [lstrip].
    destruct (isspace a) eqn:E; [exact IH|]. now intros c r [= <- _]. }
  assert (Hr : forall t : str, exists p, t = rstrip t ++ p /\ forallb isspace p = true).
  { intros t. destruct (Hl (rev t)) as (p & Hp & Hb). exists (rev p).
    unfold rstrip. rewrite forallb_rev. split; [|exact Hb].
    rewrite <- rev_app_distr, <- Hp. now rewrite rev_involutive. }
  split; [|split].
  - destruct (Hl s) as (p & Hp & Hb). destruct (Hr (lstrip s)) as (p' & Hp' & Hb').
    exists p, p'. unfold strip. now rewrite <- Hp', <- Hp.
  - intros c r H. unfold strip in H.
    destruct (lstrip s) as [|a t] eqn:E; [discriminate|].
    pose proof (Hh s a t E) as Ha. rewrite rstrip_cons in H by exact Ha.
    now injection H as <- _.
  - intros r c H. unfold strip, rstrip in H.
    apply (f_equal (@rev codepoint)) in H.
    rewrite rev_involutive, rev_app_distr in H. cbn in H.
    exact (Hh _ _ _ H).
Qed.

(** ** The prompt as a function of the file name and the code *)

(** X13.  The prompt does not keep the file name and the code apart: a
    file name that carries the template's own text between name and code
    gives, with the rest as code, the very prompt of a shorter file name
    with a longer code.  The backticks around the name and the fence
    around the code are no boundary. *)
Theorem prompt_confuses_name_and_code (a x y : str) :
  create_review_prompt y (a ++ prompt_body ++ x)
  = create_review_prompt (x ++ prompt_body ++ y) a
  /\ a ++ prompt_body ++ x <> a.
Proof.
  split.
  - unfold create_review_prompt. now rewrite <- !app_assoc.
  - intros H. apply (f_equal (@List.length codepoint)) in H.
    rewrite !length_app in H.
    assert (0 < List.length prompt_body) by (vm_compute; lia). lia.
Qed.

(** X14.  With the file name fixed the prompt determines the code, and
    with the code fixed it determines the file name. *)
Theorem prompt_determines_each_argument (code code' name name' : str) :
  (create_review_prompt code name = create_review_prompt code' name -> code = code')
  /\ (create_review_prompt code name = create_review_prompt code name' -> name = name').
Proof.
  unfold create_review_prompt. split; intros H.
  - apply app_inv_head in H. apply app_inv_head in H. apply app_inv_head in H.
    now apply app_inv_tail in H.
  - apply app_inv_head in H. now apply app_inv_tail in H.
Qed.

(** ** Decoding the upload *)

Section DecodeFacts.

Lemma option_map_cons (c : codepoint) (o : option str) (s : str) :
  option_map (cons c) o = Some s -> exists s', o = Some s' /\ s = c :: s'.
Proof.
  destruct o as [s'|]; [|discriminate]. intros [= <-]. now exists s'.
Qed.

Lemma decode_scalars (n : nat) :
  forall (bs : list byte) (s : str),
    List.length bs <= n -> Utf8.decode bs = Some s -> forallb is_scalar s = true.
Proof.
  induction n as [|n IH]; intros bs s Hle H.
  - destruct bs; [|simpl in Hle; lia]. now injection H as <-.
  - destruct bs as [|b0 r0]; [now injection H as <-|].
    cbn [Utf8.decode] in H. cbv zeta in H. simpl in Hle.
    unfold Utf8.within, Utf8.cont in H.
    repeat match goal with
    | H : match ?t with _ => _ end = Some _ |- _ =>
        destruct t eqn:?; try discriminate
    | H : option_map (cons _) (Utf8.decode ?r) = Some _ |- _ =>
        apply option_map_cons in H; destruct H as (s' & H & ->);
        apply IH in H; [|subst; simpl in *; lia];
        cbn [forallb]; rewrite H, andb_true_r;
        unfold is_scalar, is_surrogate
    end;
    repeat match goal with
    | H : (_ && _)%bool = true |- _ => apply andb_true_iff in H; destruct H
    | H : (_ <=? _)%N = true |- _ => apply N.leb_le in H
    | H : (_ <? _)%N = true |- _ => apply N.ltb_lt in H
    | H : (_ <? _)%N = false |- _ => apply N.ltb_ge in H
    | H : (_ =? _)%N = true |- _ => apply N.eqb_eq in H
    | H : (_ =? _)%N = false |- _ => apply N.eqb_neq in H
    | H : context [if (?a =? ?b)%N then _ else _] |- _ =>
        destruct (N.eqb_spec a b)
    end;
    (apply andb_true_iff; split;
      [ apply N.leb_le; lia
      | apply negb_true_iff, andb_false_iff;
        rewrite !N.leb_gt; lia ]).
Qed.

End DecodeFacts.

(** X15.  Decoded text holds only Unicode scalar values, no surrogate and
    nothing above U+10FFFF: whatever the upload, the text placed in the
    prompt can be encoded again. *)
Theorem decoded_text_is_scalar (bs : list byte) (s : str) :
  Utf8.decode bs = Some s ->
  forallb is_scalar s = true /\ encodable s = true.
Proof.
  intros H. pose proof (@decode_scalars (List.length bs) bs s (le_n _) H) as Hs.
  split; [exact Hs|]. unfold encodable.
  rewrite forallb_forall in *. intros c Hc. specialize (Hs c Hc).
  unfold is_scalar in Hs. apply andb_true_iff in Hs. tauto.
Qed.

Lemma decoded_text_is_scalar_witness :
  forallb is_scalar [8364; 233]%N = true /\ encodable [8364; 233]%N = true.
Proof.
  exact (@decoded_text_is_scalar [xe2; x82; xac; xc3; xa9] [8364; 233]%N eq_refl).
Defined.

(** X16.  An upload of 7-bit bytes always decodes, to one code point per
    byte with the byte's value. *)
Theorem ascii_upload_decodes (bs : list byte) :
  forallb (fun b => (Byte.to_N b <? 128)%N) bs = true ->
  Utf8.decode bs = Some (map Byte.to_N bs).
Proof.
  induction bs as [|b bs IH]; [reflexivity|].
  cbn [forallb]. intros H. apply andb_true_iff in H. destruct H as [Hb H].
  cbn [Utf8.decode map]. cbv zeta. rewrite Hb, (IH H). reflexivity.
Qed.

Lemma ascii_upload_decodes_witness :
  Utf8.decode (Utf8.ascii_bytes "print(1)") = Some (map Byte.to_N (Utf8.ascii_bytes "print(1)")).
Proof.
  exact (ascii_upload_decodes (Utf8.ascii_bytes "print(1)") eq_refl).
Defined.

(** ** The values [json.loads] builds *)

Section DictFacts.

Import Json.

Lemma str_eqb_eq (a b : str) : PyStr.eqb a b = true <-> a = b.
Proof. unfold PyStr.eqb; destruct (list_eq_dec N.eq_dec a b); split; congruence. Qed.

Lemma str_eqb_sym (a b : str) : PyStr.eqb a b = PyStr.eqb b a.
Proof.
  destruct (PyStr.eqb a b) eqn:E, (PyStr.eqb b a) eqn:E'; try reflexivity.
  - apply str_eqb_eq in E. subst. assert (PyStr.eqb b b = true) by now apply str_eqb_eq.
    congruence.
  - apply str_eqb_eq in E'. subst. assert (PyStr.eqb a a = true) by now apply str_eqb_eq.
    congruence.
Qed.

Lemma mem_snoc (k k' : str) (ks : list str) :
  mem k' (ks ++ [k]) = mem k' ks || PyStr.eqb k' k.
Proof.
  induction ks as [|a ks IH]; cbn [mem app].
  - now rewrite orb_false_r.
  - now rewrite IH, orb_assoc.
Qed.

Lemma distinct_snoc (k : str) (ks : list str) :
  distinct ks = true -> mem k ks = false -> distinct (ks ++ [k]) = true.
Proof.
  induction ks as [|a ks IH]; [reflexivity|]. cbn [distinct mem app].
  intros Hd Hm. apply andb_true_iff in Hd. destruct Hd as [Ha Hd].
  apply orb_false_iff in Hm. destruct Hm as [Hka Hm].
  rewrite mem_snoc, (str_eqb_sym a k), Hka, orb_false_r, Ha. cbn. auto.
Qed.

(** [d[k] = v] keeps the keys of [d] in place and adds [k] at the end when
    it is new. *)
Lemma dict_set_keys (k : str) (v : value) (d : list (str * value)) :
  map fst (dict_set k v d)
  = if mem k (map fst d) then map fst d else map fst d ++ [k].
Proof.
  induction d as [|[k' v'] d IH]; [reflexivity|]. cbn [dict_set map fst mem].
  destruct (PyStr.eqb k k'); cbn [orb map fst]; [reflexivity|].
  rewrite IH. now destruct (mem k (map fst d)).
Qed.

Lemma dict_set_distinct (k : str) (v : value) (d : list (str * value)) :
  distinct (map fst d) = true -> distinct (map fst (dict_set k v d)) = true.
Proof.
  intros H. rewrite dict_set_keys. destruct (mem k (map fst d)) eqn:E; [exact H|].
  now apply distinct_snoc.
Qed.

Lemma dict_set_values (P : value -> bool) (k : str) (v : value) (d : list (str * value)) :
  P v = true -> forallb (fun kv => P (snd kv)) d = true ->
  forallb (fun kv => P (snd kv)) (dict_set k v d) = true.
Proof.
  intros Hv. induction d as [|[k' v'] d IH]; cbn [dict_set forallb snd].
  - now rewrite Hv.
  - intros H. apply andb_true_iff in H. destruct H as [Hv' Hd].
    destruct (PyStr.eqb k k'); cbn [forallb snd].
    + now rewrite Hv, Hd.
    + now rewrite Hv', IH.
Qed.

Lemma unique_keys_list (l : list value) :
  unique_keys (JList l) = forallb unique_keys l.
Proof. reflexivity. Qed.

Lemma unique_keys_dict (d : list (str * value)) :
  unique_keys (JDict d)
  = distinct (map fst d) && forallb (fun kv => unique_keys (snd kv)) d.
Proof. reflexivity. Qed.

Lemma dict_of_pairs_unique (pairs : list (str * value)) :
  forallb (fun kv => unique_keys (snd kv)) pairs = true ->
  unique_keys (JDict (dict_of_pairs pairs)) = true.
Proof.
  unfold dict_of_pairs.
  assert (G : forall d,
    distinct (map fst d) = true -> forallb (fun kv => unique_keys (snd kv)) d = true ->
    forallb (fun kv => unique_keys (snd kv)) pairs = true ->
    unique_keys (JDict (fold_left (fun d kv => dict_set (fst kv) (snd kv) d) pairs d))
    = true).
  { induction pairs as [|[k v] pairs IH]; intros d Hk Hv Hp.
    - cbn [fold_left]. now rewrite unique_keys_dict, Hk, Hv.
    - cbn [forallb snd] in Hp. apply andb_true_iff in Hp. destruct Hp as [Hv0 Hp].
      cbn [fold_left fst snd]. apply IH; [| |exact Hp].
      + now apply dict_set_distinct.
      + now apply dict_set_values. }
  now apply G.
Qed.

Lemma forallb_rev_any (A : Type) (f : A -> bool) (l : list A) :
  forallb f (rev l) = forallb f l.
Proof.
  induction l as [|a l IH]; [reflexivity|]. cbn [rev forallb].
  rewrite forallb_app, IH. cbn. rewrite andb_true_r. apply andb_comm.
Qed.

Lemma match_number_plain (s : str) (v : value) (rest : str) :
  match_number s = Some (v, rest) -> unique_keys v = true.
Proof.
  unfold match_number. intros H.
  repeat match goal with
  | H : match ?t with _ => _ end = Some _ |- _ =>
      destruct t eqn:?; try discriminate
  | H : Some _ = Some _ |- _ => injection H as <- _
  end; reflexivity.
Qed.

Lemma scan_unique_keys (fuel : nat) :
  (forall s v rest, scan_once fuel s = Scanned v rest -> unique_keys v = true)
  /\ (forall s acc v rest,
         parse_array fuel s acc = Scanned v rest ->
         forallb unique_keys acc = true -> unique_keys v = true)
  /\ (forall s acc v rest,
         parse_object fuel s acc = Scanned v rest ->
         forallb (fun kv => unique_keys (snd kv)) acc = true ->
         unique_keys v = true).
Proof.
  induction fuel as [|f (IHs & IHa & IHo)];
    [repeat split; intros; discriminate|].
  repeat split.
  - intros s v rest H. cbn [scan_once] in H.
    repeat match goal with
    | H : match ?t with _ => _ end = Scanned _ _ |- _ =>
        destruct t eqn:?; try discriminate
    | H : Scanned _ _ = Scanned _ _ |- _ => injection H as <- _
    | H : match_number _ = Some _ |- _ => apply match_number_plain in H
    end; try reflexivity; try assumption;
    first [ eapply IHa; [eassumption | reflexivity]
          | eapply IHo; [eassumption | reflexivity] ].
  - intros s acc v rest H Hacc. cbn [parse_array] in H.
    repeat match goal with
    | H : match ?t with _ => _ end = Scanned _ _ |- _ =>
        destruct t eqn:?; try discriminate
    | H : Scanned _ _ = Scanned _ _ |- _ => injection H as <- _
    | H : scan_once f _ = Scanned _ _ |- _ => apply IHs in H
    end.
    + rewrite unique_keys_list, forallb_app, forallb_rev_any, Hacc. cbn [forallb].
      match goal with H : unique_keys _ = true |- _ => now rewrite H end.
    + eapply IHa; [eassumption|]. cbn [forallb]. rewrite Hacc.
      match goal with H : unique_keys _ = true |- _ => now rewrite H end.
  - intros s acc v rest H Hacc. cbn [parse_object] in H.
    repeat match goal with
    | H : match ?t with _ => _ end = Scanned _ _ |- _ =>
        destruct t eqn:?; try discriminate
    | H : Scanned _ _ = Scanned _ _ |- _ => injection H as <- _
    | H : scan_once f _ = Scanned _ _ |- _ => apply IHs in H
    end.
    + apply dict_of_pairs_unique.
      rewrite forallb_app, forallb_rev_any, Hacc. cbn [forallb snd].
      match goal with H : unique_keys _ = true |- _ => now rewrite H end.
    + eapply IHo; [eassumption|]. cbn [forallb snd]. rewrite Hacc.
      match goal with H : unique_keys _ = true |- _ => now rewrite H end.
Qed.

End DictFacts.

(** X17.  No object that [json.loads] builds, at any depth, has a key
    twice: a repeated key keeps its first place and takes the last value.
    So the value a 200 response carries has unique keys. *)
Theorem loads_keys_are_unique (s : str) (v : Json.value) :
  Json.loads s = Some v -> unique_keys v = true.
Proof.
  unfold Json.loads. intros H.
  repeat match goal with
  | H : match ?t with _ => _ end = Some _ |- _ =>
      destruct t eqn:?; try discriminate
  | H : Some _ = Some _ |- _ => injection H as <-
  end;
  match goal with
  | H : Json.scan_once _ _ = Json.Scanned _ _ |- _ =>
      exact (proj1 (scan_unique_keys _) _ _ _ H)
  end.
Qed.

Lemma loads_keys_are_unique_witness :
  unique_keys (Json.JDict [(lit "a", Json.JInt 3); (lit "b", Json.JInt 2)]) = true.
Proof.
  refine (@loads_keys_are_unique
            (lit "{" ++ quoted "a" ++ lit ":1," ++ quoted "b" ++ lit ":2,"
                 ++ quoted "a" ++ lit ":3}")
            (Json.JDict [(lit "a", Json.JInt 3); (lit "b", Json.JInt 2)]) _).
  vm_compute. reflexivity.
Defined.
